(** * The Tencent translator adapter of EdgeTranslate

    A shallow embedding of
    [src/background/library/translators/tencent.js]: the language table,
    the parser of the provider's answer, the credential refresh, and the
    three entry points [detect], [translate] and [pronounce], followed by
    the properties the adapter's description states about them.

    Strings are sequences of UTF-16 code units, as in JavaScript.  The
    browser (tabs, cookies, audio element), the HTTP client and the clock
    are an explicit environment: each call appends an event to a trace and
    takes its answer from a script held in the world; a script that has run
    out is an answer that never comes, so that the promise stays pending. *)

From Stdlib Require Import ZArith NArith String Ascii List Lia DecimalString.
From stdpp Require Import gmap strings list fin_maps.
From Equations Require Import Equations.
From Equations.Prop Require Import Logic.

(* ===================================================================== *)
(** ** JavaScript strings *)
(* ===================================================================== *)

(** A JavaScript string: its UTF-16 code units. *)
Abbreviation jsstring := (list N).

(** The code units of an ASCII literal of the source. *)
Definition js (s : string) : jsstring :=
  map N_of_ascii (list_ascii_of_string s).

(** What a template literal or [URLSearchParams] makes of a value that may
    be [undefined]. *)
Definition to_string (o : option jsstring) : jsstring :=
  match o with
  | Some s => s
  | None => js "undefined"
  end.

(** The surrogate code units of UTF-16. *)
Definition is_high_surrogate (c : N) : bool :=
  ((55296 <=? c) && (c <=? 56319))%N.

Definition is_low_surrogate (c : N) : bool :=
  ((56320 <=? c) && (c <=? 57343))%N.

(** The conversion of a string to a [USVString], which the constructor of
    [URLSearchParams] applies to the names and the values it is given: a
    surrogate that is not half of a pair is replaced by U+FFFD. *)
Fixpoint USVString (s : jsstring) : jsstring :=
  match s with
  | [] => []
  | c :: s' =>
      if is_high_surrogate c then
        match s' with
        | d :: s'' =>
            if is_low_surrogate d then c :: d :: USVString s''
            else 65533%N :: USVString s'
        | [] => [65533%N]
        end
      else if is_low_surrogate c then 65533%N :: USVString s'
      else c :: USVString s'
  end.

(** Truthiness of a value that is a string when it is there: [undefined],
    [null] and the empty string are falsy. *)
Definition truthy (o : option jsstring) : bool :=
  match o with
  | Some (_ :: _) => true
  | _ => false
  end.

(** [Array.prototype.join] on an array of strings. *)
Fixpoint join (sep : jsstring) (l : list jsstring) : jsstring :=
  match l with
  | [] => []
  | [s] => s
  | s :: l' => s ++ sep ++ join sep l'
  end.

(** The class [\s] of a JavaScript regular expression: the white space and
    line terminator code points of ECMAScript. *)
Definition is_space (c : N) : bool :=
  ((c =? 9) || (c =? 10) || (c =? 11) || (c =? 12) || (c =? 13)
   || (c =? 32) || (c =? 160) || (c =? 5760)
   || ((8192 <=? c) && (c <=? 8202))
   || (c =? 8232) || (c =? 8233) || (c =? 8239) || (c =? 8287)
   || (c =? 12288) || (c =? 65279))%N.

(** The code unit of ["/"]. *)
Definition slash : N := 47%N.

(** A greedy [\s*] at the head of [l]: what is left after it. *)
Fixpoint skip_spaces (l : jsstring) : jsstring :=
  match l with
  | c :: l' => if is_space c then skip_spaces l' else l
  | [] => []
  end.

(** The regular expression [/\s*\/\s*/] matched at the head of [l]: the
    rest of the string after the match, [None] when it does not match
    there.  The first [\s*] is greedy and stops at a code unit that is not
    white space; giving some of it back cannot help, since the next unit
    would then be white space and not the slash. *)
Definition match_sep (l : jsstring) : option jsstring :=
  match skip_spaces l with
  | c :: r => if (c =? slash)%N then Some (skip_spaces r) else None
  | [] => None
  end.

Lemma skip_spaces_length l : length (skip_spaces l) <= length l.
Proof.
  induction l as [|c l IH]; simpl; [lia|].
  destruct (is_space c); simpl; lia.
Qed.

Lemma match_sep_length l r : match_sep l = Some r -> length r < length l.
Proof.
  unfold match_sep. intros H.
  pose proof (skip_spaces_length l) as Hl.
  destruct (skip_spaces l) as [|c t]; [discriminate|].
  destruct (c =? slash)%N; [|discriminate].
  injection H as <-. pose proof (skip_spaces_length t). simpl in Hl. lia.
Qed.

(** [String.prototype.split] with the separator [/\s*\/\s*/g]: the loop of
    [RegExp.prototype[@@split]].  [seg] is the text between the end [p] of
    the last match and the position [q] that is tried next, [l] is the
    string from [q] on.  A match is never empty (it holds the slash), so
    the step that skips empty matches is never taken. *)
Equations? split_from (seg : jsstring) (l : jsstring) : list jsstring
  by wf (length l) lt :=
split_from seg [] := [seg];
split_from seg (c :: l') with inspect (match_sep (c :: l')) := {
  | exist _ (Some rest) Hm := seg :: split_from [] rest
  | exist _ None _ := split_from (seg ++ [c]) l' }.
Proof.
  apply match_sep_length in Hm. exact Hm.
Qed.

Definition split (s : jsstring) : list jsstring := split_from [] s.

(* ===================================================================== *)
(** ** The language table *)
(* ===================================================================== *)

(** Supported languages. *)
Definition LANGUAGES : list (jsstring * jsstring) :=
  [ (js "auto", js "auto");
    (js "zh-CN", js "zh");
    (js "en", js "en");
    (js "ja", js "jp");
    (js "ko", js "kr");
    (js "fr", js "fr");
    (js "es", js "es");
    (js "it", js "it");
    (js "de", js "de");
    (js "tr", js "tr");
    (js "ru", js "ru");
    (js "pt", js "pt");
    (js "vi", js "vi");
    (js "id", js "id");
    (js "th", js "th");
    (js "ms", js "ms");
    (js "ar", js "ar");
    (js "hi", js "hi") ].

(** [new Map(entries)]: the entries are set in order, a later entry with
    the same key replaces the earlier one. *)
Definition new_Map (entries : list (jsstring * jsstring))
  : gmap jsstring jsstring :=
  foldl (fun m e => <[e.1 := e.2]> m) ∅ entries.

(** Max retry times. *)
Definition MAX_RETRY : nat := 1.

(** Base url. *)
Definition BASE_URL : jsstring := js "https://fanyi.qq.com".

(** Language to translator language code. *)
Definition LAN_TO_CODE : gmap jsstring jsstring := new_Map LANGUAGES.

(** Translator language code to language. *)
Definition CODE_TO_LAN : gmap jsstring jsstring :=
  new_Map (map (fun e => (e.2, e.1)) LANGUAGES).

(** Get supported languages of this API. *)
Definition supportedLanguages : gset jsstring := dom LAN_TO_CODE.

(* ===================================================================== *)
(** ** The provider's answer, errors and results *)
(* ===================================================================== *)

(** The answer of the provider, as the adapter reads it: the JSON typed
    by the fields that are read, each of them a string, an object or an
    array where it is there.  A field is [None] when the JSON has no such
    field (or has [null] there); the arrays are lists.  [translate_] is the
    field [translate] and [suggest_data] the field [data] of [suggest]. *)
Record TranslateRecord := {
  sourceText : option jsstring;
  targetText : option jsstring
}.

Record TranslateData := {
  source : option jsstring;
  records : option (list TranslateRecord)
}.

Record SuggestItem := {
  prx_ph_AmE : option jsstring;
  examples_json : option jsstring
}.

Record SuggestData := {
  suggest_data : option (list SuggestItem)
}.

Record DictItem := {
  ps : option jsstring;
  explanation : option (list jsstring)
}.

Record DictData := {
  abstract : option (list DictItem)
}.

Record ResponseData := {
  translate_ : option TranslateData;
  dict : option DictData;
  suggest : option SuggestData
}.

(** What [JSON.parse(examples_json)] yields, as far as it is read. *)
Record ExampleItem := {
  item_sourceText : option jsstring;
  item_targetText : option jsstring
}.

Record ExamplesJson := {
  basic : option (list ExampleItem)
}.

(** The response object of the HTTP client. *)
Record Response := {
  status : Z;
  data : ResponseData
}.

(** What a promise of the adapter is rejected with.  The structured error
    of the adapter carries its raw cause: the response, or the error that
    was caught. *)
Inductive Error :=
| TypeError                       (* a property of undefined is read *)
| SyntaxError                     (* JSON.parse fails *)
| URIError                        (* encodeURIComponent fails *)
| Message (msg : jsstring)        (* reject("...") *)
| Undefined                       (* reject() *)
| AxiosError (msg : jsstring)     (* the HTTP client rejects *)
| MediaError (name : jsstring)    (* AUDIO.play() rejects *)
| ApiError (errorType : jsstring) (errorCode : Z) (errorMsg : jsstring)
           (errorObj : Cause)
with Cause :=
| CauseResponse (r : Response)
| CauseError (e : Error).

(** A computation that returns or throws. *)
Inductive res (A : Type) :=
| OK (a : A)
| Throw (e : Error).
Arguments OK {A} a.
Arguments Throw {A} e.

#[global] Instance res_bind : MBind res := fun A B k r =>
  match r with
  | OK a => k a
  | Throw e => Throw e
  end.

(** Reading a property of [o]: a [TypeError] when [o] is undefined. *)
Definition deref {A} (o : option A) : res A :=
  match o with
  | Some a => OK a
  | None => Throw TypeError
  end.

(** [Array.prototype.map] with a callback that may throw. *)
Fixpoint map_res {A B} (f : A -> res B) (l : list A) : res (list B) :=
  match l with
  | [] => OK []
  | a :: l' => b ← f a; bs ← map_res f l'; OK (b :: bs)
  end.

(** The fields of a parsed result. *)
Record Example_ := {
  ex_source : option jsstring;
  ex_target : option jsstring
}.

Record Meaning := {
  pos : option jsstring;
  meaning : jsstring
}.

Inductive Field :=
| FUndefined
| FString (s : jsstring)
| FExamples (l : list Example_)
| FMeanings (l : list Meaning).

Definition of_option (o : option jsstring) : Field :=
  match o with
  | Some s => FString s
  | None => FUndefined
  end.

(** [!o || o.length <= 0] for a value that is a string when it is there. *)
Definition missing (o : option jsstring) : bool :=
  negb (truthy o)
  || match o with Some s => length s <=? 0 | None => false end.

(* ===================================================================== *)
(** ** The browser, the HTTP client and the adapter's state *)
(* ===================================================================== *)

(** [tab.status] of [chrome.tabs]. *)
Inductive TabStatus := unloaded | loading | complete.

#[global] Instance TabStatus_eq_dec : EqDecision TabStatus.
Proof. solve_decision. Defined.

Record Cookie := {
  name : jsstring;
  value : jsstring
}.

(** The configuration given to the HTTP client; [params] is the
    [URLSearchParams] body, in the order of the source. *)
Record Request := {
  method : jsstring;
  baseURL : jsstring;
  url : jsstring;
  headers : list (jsstring * jsstring);
  params : list (jsstring * jsstring)
}.

(** [new URLSearchParams(init)] on an object literal: its entries in
    order, names and values converted. *)
Definition URLSearchParams (init : list (jsstring * jsstring))
  : list (jsstring * jsstring) :=
  map (fun e => (USVString e.1, USVString e.2)) init.

(** [URLSearchParams.get]. *)
Fixpoint param (key : jsstring) (l : list (jsstring * jsstring))
  : option jsstring :=
  match l with
  | [] => None
  | (k, v) :: l' => if decide (k = key) then Some v else param key l'
  end.

(** The calls the adapter makes, as they appear in the trace. *)
Inductive Event :=
| Axios (req : Request)
| TabsCreate (url : jsstring) (active : bool)
| OnUpdatedAddListener
| TabsRemove (tabId : N)
| Log (msg : jsstring)
| OnUpdatedRemoveListener
| CookiesGetAll (url : jsstring)
| CookiesGet (url : jsstring) (name : jsstring)
| AudioPause
| AudioSetSrc (src : jsstring)
| AudioPlay.

(** The world: the adapter's fields ([qtk], [qtv], the [AUDIO] element's
    [src] and [paused]), the answers the environment will give to each kind
    of call, in order, and the trace of the calls made so far.
    - [axios_replies]: a response, or the message of a rejection;
    - [tabs_create_replies]: the id of the tab, or [lastError.message];
    - [tabs_updates]: the [onUpdated] events delivered from now on, each
      with the id and the status of its tab;
    - [tabs_remove_replies]: [lastError.message] if there is one;
    - [cookies_getAll_replies], [cookies_get_replies]: the cookies found;
    - [play_replies]: the name of the error when playback fails;
    - [clock]: the time at the n-th reading of the clock. *)
Record World := {
  qtk : jsstring;
  qtv : jsstring;
  AUDIO_src : jsstring;
  AUDIO_paused : bool;
  axios_replies : list (Response + jsstring);
  tabs_create_replies : list (N + jsstring);
  tabs_updates : list (N * TabStatus);
  tabs_remove_replies : list (option jsstring);
  cookies_getAll_replies : list (list Cookie);
  cookies_get_replies : list (option Cookie);
  play_replies : list (option jsstring);
  clock : nat -> N;
  clock_reads : nat;
  trace : list Event
}.

Definition set_qtk (v : jsstring) (w : World) : World :=
  {| qtk := v; qtv := qtv w;
     AUDIO_src := AUDIO_src w; AUDIO_paused := AUDIO_paused w;
     axios_replies := axios_replies w;
     tabs_create_replies := tabs_create_replies w;
     tabs_updates := tabs_updates w;
     tabs_remove_replies := tabs_remove_replies w;
     cookies_getAll_replies := cookies_getAll_replies w;
     cookies_get_replies := cookies_get_replies w;
     play_replies := play_replies w;
     clock := clock w; clock_reads := clock_reads w; trace := trace w |}.

Definition set_qtv (v : jsstring) (w : World) : World :=
  {| qtk := qtk w; qtv := v;
     AUDIO_src := AUDIO_src w; AUDIO_paused := AUDIO_paused w;
     axios_replies := axios_replies w;
     tabs_create_replies := tabs_create_replies w;
     tabs_updates := tabs_updates w;
     tabs_remove_replies := tabs_remove_replies w;
     cookies_getAll_replies := cookies_getAll_replies w;
     cookies_get_replies := cookies_get_replies w;
     play_replies := play_replies w;
     clock := clock w; clock_reads := clock_reads w; trace := trace w |}.

Definition set_AUDIO (s : jsstring) (p : bool) (w : World) : World :=
  {| qtk := qtk w; qtv := qtv w;
     AUDIO_src := s; AUDIO_paused := p;
     axios_replies := axios_replies w;
     tabs_create_replies := tabs_create_replies w;
     tabs_updates := tabs_updates w;
     tabs_remove_replies := tabs_remove_replies w;
     cookies_getAll_replies := cookies_getAll_replies w;
     cookies_get_replies := cookies_get_replies w;
     play_replies := play_replies w;
     clock := clock w; clock_reads := clock_reads w; trace := trace w |}.

Definition set_axios_replies (l : list (Response + jsstring)) (w : World)
  : World :=
  {| qtk := qtk w; qtv := qtv w;
     AUDIO_src := AUDIO_src w; AUDIO_paused := AUDIO_paused w;
     axios_replies := l;
     tabs_create_replies := tabs_create_replies w;
     tabs_updates := tabs_updates w;
     tabs_remove_replies := tabs_remove_replies w;
     cookies_getAll_replies := cookies_getAll_replies w;
     cookies_get_replies := cookies_get_replies w;
     play_replies := play_replies w;
     clock := clock w; clock_reads := clock_reads w; trace := trace w |}.

Definition set_tabs_create_replies (l : list (N + jsstring)) (w : World)
  : World :=
  {| qtk := qtk w; qtv := qtv w;
     AUDIO_src := AUDIO_src w; AUDIO_paused := AUDIO_paused w;
     axios_replies := axios_replies w;
     tabs_create_replies := l;
     tabs_updates := tabs_updates w;
     tabs_remove_replies := tabs_remove_replies w;
     cookies_getAll_replies := cookies_getAll_replies w;
     cookies_get_replies := cookies_get_replies w;
     play_replies := play_replies w;
     clock := clock w; clock_reads := clock_reads w; trace := trace w |}.

Definition set_tabs_updates (l : list (N * TabStatus)) (w : World) : World :=
  {| qtk := qtk w; qtv := qtv w;
     AUDIO_src := AUDIO_src w; AUDIO_paused := AUDIO_paused w;
     axios_replies := axios_replies w;
     tabs_create_replies := tabs_create_replies w;
     tabs_updates := l;
     tabs_remove_replies := tabs_remove_replies w;
     cookies_getAll_replies := cookies_getAll_replies w;
     cookies_get_replies := cookies_get_replies w;
     play_replies := play_replies w;
     clock := clock w; clock_reads := clock_reads w; trace := trace w |}.

Definition set_tabs_remove_replies (l : list (option jsstring)) (w : World)
  : World :=
  {| qtk := qtk w; qtv := qtv w;
     AUDIO_src := AUDIO_src w; AUDIO_paused := AUDIO_paused w;
     axios_replies := axios_replies w;
     tabs_create_replies := tabs_create_replies w;
     tabs_updates := tabs_updates w;
     tabs_remove_replies := l;
     cookies_getAll_replies := cookies_getAll_replies w;
     cookies_get_replies := cookies_get_replies w;
     play_replies := play_replies w;
     clock := clock w; clock_reads := clock_reads w; trace := trace w |}.

Definition set_cookies_getAll_replies (l : list (list Cookie)) (w : World)
  : World :=
  {| qtk := qtk w; qtv := qtv w;
     AUDIO_src := AUDIO_src w; AUDIO_paused := AUDIO_paused w;
     axios_replies := axios_replies w;
     tabs_create_replies := tabs_create_replies w;
     tabs_updates := tabs_updates w;
     tabs_remove_replies := tabs_remove_replies w;
     cookies_getAll_replies := l;
     cookies_get_replies := cookies_get_replies w;
     play_replies := play_replies w;
     clock := clock w; clock_reads := clock_reads w; trace := trace w |}.

Definition set_cookies_get_replies (l : list (option Cookie)) (w : World)
  : World :=
  {| qtk := qtk w; qtv := qtv w;
     AUDIO_src := AUDIO_src w; AUDIO_paused := AUDIO_paused w;
     axios_replies := axios_replies w;
     tabs_create_replies := tabs_create_replies w;
     tabs_updates := tabs_updates w;
     tabs_remove_replies := tabs_remove_replies w;
     cookies_getAll_replies := cookies_getAll_replies w;
     cookies_get_replies := l;
     play_replies := play_replies w;
     clock := clock w; clock_reads := clock_reads w; trace := trace w |}.

Definition set_play_replies (l : list (option jsstring)) (w : World)
  : World :=
  {| qtk := qtk w; qtv := qtv w;
     AUDIO_src := AUDIO_src w; AUDIO_paused := AUDIO_paused w;
     axios_replies := axios_replies w;
     tabs_create_replies := tabs_create_replies w;
     tabs_updates := tabs_updates w;
     tabs_remove_replies := tabs_remove_replies w;
     cookies_getAll_replies := cookies_getAll_replies w;
     cookies_get_replies := cookies_get_replies w;
     play_replies := l;
     clock := clock w; clock_reads := clock_reads w; trace := trace w |}.

Definition set_clock_reads (n : nat) (w : World) : World :=
  {| qtk := qtk w; qtv := qtv w;
     AUDIO_src := AUDIO_src w; AUDIO_paused := AUDIO_paused w;
     axios_replies := axios_replies w;
     tabs_create_replies := tabs_create_replies w;
     tabs_updates := tabs_updates w;
     tabs_remove_replies := tabs_remove_replies w;
     cookies_getAll_replies := cookies_getAll_replies w;
     cookies_get_replies := cookies_get_replies w;
     play_replies := play_replies w;
     clock := clock w; clock_reads := n; trace := trace w |}.

Definition set_trace (t : list Event) (w : World) : World :=
  {| qtk := qtk w; qtv := qtv w;
     AUDIO_src := AUDIO_src w; AUDIO_paused := AUDIO_paused w;
     axios_replies := axios_replies w;
     tabs_create_replies := tabs_create_replies w;
     tabs_updates := tabs_updates w;
     tabs_remove_replies := tabs_remove_replies w;
     cookies_getAll_replies := cookies_getAll_replies w;
     cookies_get_replies := cookies_get_replies w;
     play_replies := play_replies w;
     clock := clock w; clock_reads := clock_reads w; trace := t |}.

(** How a promise ends: it resolves, it is rejected, or it never settles. *)
Inductive Outcome (A : Type) :=
| Resolved (a : A)
| Rejected (e : Error)
| Pending.
Arguments Resolved {A} a.
Arguments Rejected {A} e.
Arguments Pending {A}.

(** An asynchronous computation of the adapter. *)
Definition M (A : Type) : Type := World -> Outcome A * World.

#[global] Instance M_ret : MRet M := fun A a w => (Resolved a, w).

#[global] Instance M_bind : MBind M := fun A B k m w =>
  match m w with
  | (Resolved a, w') => k a w'
  | (Rejected e, w') => (Rejected e, w')
  | (Pending, w') => (Pending, w')
  end.

Definition reject {A} (e : Error) : M A := fun w => (Rejected e, w).

(** A synchronous step that returns or throws, inside an async function. *)
Definition lift {A} (r : res A) : M A :=
  match r with
  | OK a => mret a
  | Throw e => reject e
  end.

(** [try { body } catch (error) { handler }] around awaited promises. *)
Definition try_catch {A} (body : M A) (handler : Error -> M A) : M A :=
  fun w =>
    match body w with
    | (Rejected e, w') => handler e w'
    | r => r
    end.

Definition emit (e : Event) : M unit :=
  fun w => (Resolved tt, set_trace (trace w ++ [e]) w).

(** A change of the adapter's fields, and a reading of the world. *)
Definition modify (f : World -> World) : M unit :=
  fun w => (Resolved tt, f w).

Definition gets {A} (f : World -> A) : M A :=
  fun w => (Resolved (f w), w).

(** The answer to a call: the next one of its script; with none left the
    callback is never called. *)
Definition next {R} (script : World -> list R)
    (rest : list R -> World -> World) : M R :=
  fun w =>
    match script w with
    | r :: l => (Resolved r, rest l w)
    | [] => (Pending, w)
    end.

(** [new Date().getTime()]. *)
Definition getTime : M N :=
  now ← gets (fun w => clock w (clock_reads w));
  modify (fun w => set_clock_reads (S (clock_reads w)) w);;
  mret now.

(** A number in a string concatenation: its decimal digits. *)
Definition decimal (n : N) : jsstring :=
  js (NilZero.string_of_uint (N.to_uint n)).

(* ===================================================================== *)
(** ** The adapter *)
(* ===================================================================== *)

Section Adapter.

(** Two built-in functions of the language are taken as they are:
    [JSON.parse] on the examples ([None] is its [SyntaxError]) and
    [encodeURIComponent] ([None] is its [URIError]). *)
Variable JSON_parse : jsstring -> option ExamplesJson.
Variable encodeURIComponent : jsstring -> option jsstring.

(** Parse the translate result: [response] is the provider's answer,
    [originalText] the original text.  The result is the object that is
    built, a map from its property names. *)
Definition parseResult (response : ResponseData) (originalText : jsstring)
  : res (gmap string Field) :=
  let result : gmap string Field := ∅ in
  t ← deref (translate_ response);
  rs ← deref (records t);
  r0 ← deref (rs !! 0);
  let result := <["originalText" := of_option (sourceText r0)]> result in
  tt ← deref (targetText r0);
  let result := <["mainMeaning" := of_option (split tt !! 0)]> result in
  (* In case the original text is not returned by the API. *)
  let result :=
    if missing (sourceText r0)
    then <["originalText" := FString originalText]> result
    else result in
  result ←
    match suggest response ≫= suggest_data with
    | Some (item0 :: _) =>
        let result :=
          if truthy (prx_ph_AmE item0)
          then <["sPronunciation" := of_option (prx_ph_AmE item0)]> result
          else result in
        if truthy (examples_json item0)
        then
          parsed ← match JSON_parse (to_string (examples_json item0)) with
                   | Some p => OK p
                   | None => Throw SyntaxError
                   end;
          items ← deref (basic parsed);
          OK (<["examples" :=
                  FExamples (map (fun item =>
                    {| ex_source := item_sourceText item;
                       ex_target := item_targetText item |}) items)]> result)
        else OK result
    | _ => OK result
    end;
  match dict response ≫= abstract with
  | Some (item0 :: items) =>
      ms ← map_res (fun item =>
              e ← deref (explanation item);
              OK {| pos := ps item; meaning := join (js ", ") e |})
            (item0 :: items);
      OK (<["detailedMeanings" := FMeanings ms]> result)
  | _ => OK result
  end.

(** The calls to the browser and to the HTTP client. *)
Definition axios (req : Request) : M Response :=
  emit (Axios req);;
  reply ← next axios_replies set_axios_replies;
  match reply with
  | inl response => mret response
  | inr msg => reject (AxiosError msg)
  end.

(** [chrome.tabs.create] wrapped in its promise: the id of the tab, or
    a rejection with [lastError.message]. *)
Definition tabs_create (url : jsstring) (active : bool) : M N :=
  emit (TabsCreate url active);;
  reply ← next tabs_create_replies set_tabs_create_replies;
  match reply with
  | inl tabId => mret tabId
  | inr msg => reject (Message msg)
  end.

(** The listener of [requestHomePage] on the events that follow: it
    returns at once on the events of other tabs and on those that report
    [loading]; [Some] is the status of the first event it acts on and the
    events after it. *)
Fixpoint tabUpdateListener (tabId : N) (events : list (N * TabStatus))
  : option (TabStatus * list (N * TabStatus)) :=
  match events with
  | [] => None
  | (id, st) :: events' =>
      if negb (bool_decide (id = tabId)) || bool_decide (st = loading)
      then tabUpdateListener tabId events'
      else Some (st, events')
  end.

Definition tabs_onUpdated (tabId : N) : M TabStatus :=
  fun w =>
    match tabUpdateListener tabId (tabs_updates w) with
    | Some (st, events') => (Resolved st, set_tabs_updates events' w)
    | None => (Pending, set_tabs_updates [] w)
    end.

(** Request Tencent translate home page in a new tab to update cookies. *)
Definition requestHomePage : M unit :=
  (* Create a tab to start requesting https://fanyi.qq.com *)
  tabId ← tabs_create BASE_URL false;
  (* Check if the tab has been loaded. *)
  emit OnUpdatedAddListener;;
  st ← tabs_onUpdated tabId;
  (* Finished loading, remove the tab. *)
  emit (TabsRemove tabId);;
  lastError ← next tabs_remove_replies set_tabs_remove_replies;
  match lastError with
  | Some msg => emit (Log msg)
  | None => mret tt
  end;;
  (* Remove added listener. *)
  emit OnUpdatedRemoveListener;;
  (* It has been loaded, call resolve.  It can not be loaded, call reject. *)
  if bool_decide (st = complete) then mret tt else reject Undefined.

(** The loop of [updateTokens] over the cookies. *)
Definition store_tokens (cookies : list Cookie) (w : World) : World :=
  foldl (fun w cookie =>
           if bool_decide (name cookie = js "qtv")
           then set_qtv (value cookie) w
           else if bool_decide (name cookie = js "qtk")
                then set_qtk (value cookie) w
                else w)
        w cookies.

(** Update request tokens. *)
Definition updateTokens : M unit :=
  (* Update cookies first. *)
  requestHomePage;;
  (* Get qtk and qrv from cookies. *)
  emit (CookiesGetAll BASE_URL);;
  cookies ← next cookies_getAll_replies set_cookies_getAll_replies;
  modify (store_tokens cookies).

(** The request of [detect]. *)
Definition detect_request (text : jsstring) : Request :=
  {| method := js "POST";
     baseURL := BASE_URL;
     url := js "/api/translate";
     headers := [];
     params := URLSearchParams
                 [ (js "source", to_string (LAN_TO_CODE !! js "auto"));
                   (js "target", to_string (LAN_TO_CODE !! js "zh-CN"));
                   (js "sourceText", text) ] |}.

(** Detect language of given text. *)
Definition detect (text : jsstring) : M (option jsstring) :=
  response ← axios (detect_request text);
  t ← lift (deref (translate_ (data response)));
  let result := source t in
  mret (result ≫= (CODE_TO_LAN !!.)).

(** The request of [translateOnce]. *)
Definition translate_request (text from to : jsstring) (now : N)
    (qtv qtk : jsstring) : Request :=
  {| method := js "POST";
     baseURL := BASE_URL;
     url := js "/api/translate";
     headers := [];
     params := URLSearchParams
                 [ (js "source", to_string (LAN_TO_CODE !! from));
                   (js "target", to_string (LAN_TO_CODE !! to));
                   (js "sourceText", text);
                   (js "qtv", qtv);
                   (js "qtk", qtk);
                   (js "sessionUuid", js "translate_uuid" ++ decimal now) ] |}.

(** [response.data.dict || (response.data.translate && retryCount >=
    MAX_RETRY)]: translate succeeded. *)
Definition succeeded (retryCount : nat) (response : Response) : bool :=
  bool_decide (is_Some (dict (data response)))
  || (bool_decide (is_Some (translate_ (data response)))
      && bool_decide (MAX_RETRY <= retryCount)).

(** The request that [translateOnce] awaits: the tokens are those held
    when it is sent. *)
Definition post_translate (text from to : jsstring) : M Response :=
  this_qtv ← gets qtv;
  this_qtk ← gets qtk;
  now ← getTime;
  axios (translate_request text from to now this_qtv this_qtk).

(** The closure [translateOnce] of [translate]; [retryCount] is the
    variable it shares with [translate]. *)
Equations? translateOnce (text from to : jsstring) (retryCount : nat)
  : M (gmap string Field) by wf (MAX_RETRY - retryCount) lt :=
translateOnce text from to retryCount :=
  response ← post_translate text from to;
  (* Translate succeeded. *)
  if succeeded retryCount response
  then lift (parseResult (data response) text)
  else
    (* Retry. *)
    match decide (retryCount < MAX_RETRY) with
    | left Hlt =>
        updateTokens;; translateOnce text from to (S retryCount)
    | right _ =>
        reject (ApiError (js "API_ERR") (status response)
          (js "Translate failed, please contact developers to report problem.")
          (CauseResponse response))
    end.
Proof. lia. Qed.

(** Translate given text. *)
Definition translate (text from to : jsstring) : M (gmap string Field) :=
  translateOnce text from to 0.

(** Pause pronounce. *)
Definition stopPronounce : M unit :=
  paused ← gets AUDIO_paused;
  if negb paused
  then emit AudioPause;; modify (fun w => set_AUDIO (AUDIO_src w) true w)
  else mret tt.

(** [chrome.cookies.get] for the cookie [fy_guid], wrapped in its
    promise. *)
Definition get_guid : M jsstring :=
  emit (CookiesGet BASE_URL (js "fy_guid"));;
  cookie ← next cookies_get_replies set_cookies_get_replies;
  match cookie with
  | Some c =>
      if truthy (Some (value c)) then mret (value c)
      else reject (Message (js "Tencent guid not found!"))
  | None => reject (Message (js "Tencent guid not found!"))
  end.

(** [this.AUDIO.src = src]. *)
Definition AUDIO_set_src (src : jsstring) : M unit :=
  emit (AudioSetSrc src);;
  modify (fun w => set_AUDIO src (AUDIO_paused w) w).

(** [this.AUDIO.play()]: playback starts, or the promise is rejected. *)
Definition AUDIO_play : M unit :=
  emit AudioPlay;;
  reply ← next play_replies set_play_replies;
  match reply with
  | None => modify (fun w => set_AUDIO (AUDIO_src w) false w)
  | Some err => reject (MediaError err)
  end.

(** The src url of the audio: the template literal of [pronounceOnce]. *)
Definition tts_url (language encoded guid : jsstring) : jsstring :=
  BASE_URL ++ js "/api/tts?platform=PC_Website&lang="
  ++ to_string (LAN_TO_CODE !! language)
  ++ js "&text=" ++ encoded ++ js "&guid=" ++ guid.

(** The body of [try] in [pronounceOnce]: one attempt. *)
Definition speak (text language : jsstring) : M unit :=
  (* Get Tencent guid. *)
  guid ← get_guid;
  (* Construct src url. *)
  encoded ← lift (match encodeURIComponent text with
                  | Some e => OK e
                  | None => Throw URIError
                  end);
  AUDIO_set_src (tts_url language encoded guid);;
  AUDIO_play.

(** The closure [pronounceOnce] of [pronounce]; [retryCount] is the
    variable it shares with [pronounce]. *)
Equations? pronounceOnce (text language : jsstring) (retryCount : nat)
  : M unit by wf (MAX_RETRY - retryCount) lt :=
pronounceOnce text language retryCount :=
  try_catch
    (speak text language)
    (fun error =>
       (* Update cookies on failure. *)
       match decide (retryCount < MAX_RETRY) with
       | left Hlt =>
           requestHomePage;; pronounceOnce text language (S retryCount)
       | right _ =>
           reject (ApiError (js "API_ERR") 0
             (js "Pronounce failed, please contact developers to report problem.")
             (CauseError error))
       end).
Proof. lia. Qed.

(** Pronounce given text; [speed] is not used. *)
Definition pronounce (text language speed : jsstring) : M unit :=
  (* Pause audio in case that it's playing. *)
  stopPronounce;;
  pronounceOnce text language 0.

End Adapter.

(* ===================================================================== *)
(** ** What the descriptions below speak of *)
(* ===================================================================== *)

(** The record of the answer that [parseResult] reads: the first one. *)
Definition provider_record (d : ResponseData) : option TranslateRecord :=
  t ← translate_ d; rs ← records t; rs !! 0.

(** The first entry of the suggestions and the list of the dictionary. *)
Definition provider_suggestion (d : ResponseData) : option SuggestItem :=
  sg ← suggest d; items ← suggest_data sg; items !! 0.

Definition provider_abstract (d : ResponseData) : option (list DictItem) :=
  dict d ≫= abstract.

(** A string does not end in white space. *)
Definition no_trailing_space (m : jsstring) : Prop :=
  forall c, last m = Some c -> is_space c = false.

(** [m] is the first segment of [s] split on a slash with optional white
    space around it: [m] holds no slash, and either it is all of [s], or
    [s] goes on after [m] with white space and a slash, and the white space
    before the slash is none of [m]. *)
Definition first_segment (s m : jsstring) : Prop :=
  (slash ∉ m) /\
  (m = s \/
   exists ws rest, s = m ++ ws ++ slash :: rest
     /\ Forall (fun c => is_space c = true) ws /\ no_trailing_space m).

(** The token that the loop of [updateTokens] leaves in a field that held
    [old]: the value of the last cookie of that name, if there is one. *)
Definition last_cookie (key : jsstring) (cookies : list Cookie)
    (old : jsstring) : jsstring :=
  foldl (fun acc c => if bool_decide (name c = key) then value c else acc)
        old cookies.

(** The calls of one credential refresh that goes through. *)
Definition refresh_events (tabId : N) (lastError : option jsstring)
  : list Event :=
  [TabsCreate BASE_URL false; OnUpdatedAddListener; TabsRemove tabId]
  ++ match lastError with Some msg => [Log msg] | None => [] end
  ++ [OnUpdatedRemoveListener; CookiesGetAll BASE_URL].

Definition is_Axios (e : Event) : bool :=
  match e with Axios _ => true | _ => false end.

Definition is_TabsCreate (e : Event) : bool :=
  match e with TabsCreate _ _ => true | _ => false end.

Definition is_CookiesGetAll (e : Event) : bool :=
  match e with CookiesGetAll _ => true | _ => false end.

(** How many events of a kind a trace holds. *)
Definition count (p : Event -> bool) (evs : list Event) : nat :=
  length (filter (fun e => p e = true) evs).

(** A computation keeps a relation between the world before and the world
    after. *)
Definition preserves {A} (P : relation World) (m : M A) : Prop :=
  forall w, P w (snd (m w)).

(** Reading [f] gives the same after as before. *)
Definition keeps {A} (f : World -> A) : relation World :=
  fun w w' => f w' = f w.

(** The trace grows by events that all satisfy [allowed]. *)
Definition extends (allowed : Event -> bool) : relation World :=
  fun w w' => exists evs, trace w' = trace w ++ evs
                          /\ Forall (fun e => allowed e = true) evs.

(** The kinds of events. *)
Definition is_tab_event (e : Event) : bool :=
  match e with
  | TabsCreate _ _ | OnUpdatedAddListener | TabsRemove _ | Log _
  | OnUpdatedRemoveListener => true
  | _ => false
  end.

Definition is_refresh_event (e : Event) : bool :=
  is_tab_event e || is_CookiesGetAll e.

Definition is_speak_event (e : Event) : bool :=
  match e with
  | CookiesGet _ _ | AudioSetSrc _ | AudioPlay => true
  | _ => false
  end.

(** A computation returned. *)
Definition returned {A} (r : res A) : bool :=
  match r with OK _ => true | Throw _ => false end.

Definition is_AudioPause (e : Event) : bool :=
  match e with AudioPause => true | _ => false end.

Definition is_CookiesGet (e : Event) : bool :=
  match e with CookiesGet _ _ => true | _ => false end.

(** What one attempt and one page reload may call. *)
Definition is_attempt_event (e : Event) : bool :=
  is_speak_event e || is_tab_event e.

Definition is_audio_out (e : Event) : bool :=
  match e with AudioSetSrc _ | AudioPlay => true | _ => false end.

(** What follows the creation of the tab in a request of the home page,
    and in a refresh. *)
Definition is_home_tail (e : Event) : bool :=
  match e with
  | OnUpdatedAddListener | TabsRemove _ | Log _ | OnUpdatedRemoveListener =>
      true
  | _ => false
  end.

Definition is_refresh_tail (e : Event) : bool :=
  match e with
  | OnUpdatedAddListener | TabsRemove _ | Log _ | OnUpdatedRemoveListener
  | CookiesGetAll _ => true
  | _ => false
  end.

(** The names of the properties that [parseResult] may set. *)
Definition result_fields : gset string :=
  {[ "originalText"; "mainMeaning"; "sPronunciation"; "examples";
     "detailedMeanings" ]}.

(** An update event that the listener of [requestHomePage] acts on. *)
Definition relevant_update (tabId : N) (e : N * TabStatus) : Prop :=
  e.1 = tabId /\ e.2 <> loading.

#[global] Instance relevant_update_dec tabId e : Decision (relevant_update tabId e).
Proof. unfold relevant_update. apply _. Defined.

(* ===================================================================== *)
(** ** Concrete runs *)
(* ===================================================================== *)

(** Built-ins for the runs: the examples parse to an empty list, and the
    texts used need no escape. *)
Definition parse_no_examples (s : jsstring) : option ExamplesJson :=
  Some {| basic := Some [] |}.

Definition encode_plain (s : jsstring) : option jsstring := Some s.

(** A response with a translation, a dictionary entry and a
    pronunciation, and without the original text. *)
Definition response_hello : Response :=
  {| status := 200;
     data :=
       {| translate_ :=
            Some {| source := Some (js "en");
                    records := Some [ {| sourceText := None;
                                         targetText := Some (js "hola  / buenas") |} ] |};
          dict :=
            Some {| abstract :=
                      Some [ {| ps := Some (js "int.");
                                explanation := Some [js "hola"; js "buenas"] |} ] |};
          suggest :=
            Some {| suggest_data :=
                      Some [ {| prx_ph_AmE := Some (js "heh-low");
                                examples_json := None |} ] |} |} |}.

(** A response without any of the fields. *)
Definition response_empty (code : Z) : Response :=
  {| status := code;
     data := {| translate_ := None; dict := None; suggest := None |} |}.

(** A browser in which the home page loads in tab 7, the cookies hold the
    two tokens and the guid, and the audio plays. *)
Definition world_ok : World :=
  {| qtk := []; qtv := [];
     AUDIO_src := []; AUDIO_paused := false;
     axios_replies := [inl response_hello];
     tabs_create_replies := [inl 7%N];
     tabs_updates := [(3%N, complete); (7%N, loading); (7%N, complete)];
     tabs_remove_replies := [None];
     cookies_getAll_replies :=
       [[ {| name := js "qtk"; value := js "K" |};
          {| name := js "fy_guid"; value := js "g" |};
          {| name := js "qtv"; value := js "V" |} ]];
     cookies_get_replies := [Some {| name := js "fy_guid"; value := js "g" |}];
     play_replies := [None];
     clock := fun n => (1000 + N.of_nat n)%N;
     clock_reads := 0;
     trace := [] |}.

(** The provider answers twice without the fields. *)
Definition world_failing : World :=
  set_axios_replies [inl (response_empty 200); inl (response_empty 503)]
    world_ok.

(** The tab of the home page never reports anything but [loading]. *)
Definition world_loading : World :=
  set_tabs_updates [(7%N, loading); (7%N, loading)] world_ok.

(** The guid cookie is missing at first and there after the home page
    has been requested. *)
Definition world_no_guid : World :=
  set_cookies_get_replies
    [None; Some {| name := js "fy_guid"; value := js "g" |}] world_ok.

(** The guid cookie is missing, before and after the home page has been
    requested. *)
Definition world_never_guid : World :=
  set_cookies_get_replies [None; None] world_ok.

(** A response with a translation only, whose target text holds no
    slash. *)
Definition response_plain : Response :=
  {| status := 200;
     data :=
       {| translate_ :=
            Some {| source := Some (js "en");
                    records := Some [ {| sourceText := Some (js "hello");
                                         targetText := Some (js "hola ") |} ] |};
          dict := None;
          suggest := None |} |}.

(** A response with a dictionary entry and nothing else. *)
Definition response_dict_only : Response :=
  {| status := 200;
     data :=
       {| translate_ := None;
          dict := Some {| abstract := Some [] |};
          suggest := None |} |}.

(** The provider answers twice with the translation only. *)
Definition world_translation_only : World :=
  set_axios_replies [inl response_plain; inl response_plain] world_ok.

(** The provider answers with the dictionary entry only. *)
Definition world_dict_only : World :=
  set_axios_replies [inl response_dict_only] world_ok.

(** The cookies hold two values for qtk. *)
Definition world_two_qtk : World :=
  set_cookies_getAll_replies
    [[ {| name := js "qtk"; value := js "A" |};
       {| name := js "qtk"; value := js "B" |};
       {| name := js "qtv"; value := js "V" |} ]] world_ok.

(** Nothing is playing. *)
Definition world_paused : World := set_AUDIO [] true world_ok.

(** A response that reports the provider code of Japanese. *)
Definition response_japanese : Response :=
  {| status := 200;
     data :=
       {| translate_ :=
            Some {| source := Some (js "jp");
                    records := Some [ {| sourceText := Some (js "konnichiwa");
                                         targetText := Some (js "hello") |} ] |};
          dict := None;
          suggest := None |} |}.

Definition world_japanese : World :=
  set_axios_replies [inl response_japanese] world_ok.

(** A text with a high surrogate that is followed by no low surrogate. *)
Definition lone_surrogate : jsstring := [97; 55296; 98]%N.

(** The provider answers without the fields, and the tab of the home page
    cannot be created, reports that it was unloaded, or never reports
    anything but [loading]. *)
Definition world_tab_error : World :=
  set_tabs_create_replies [inr (js "No current window")] world_failing.

Definition world_tab_unloaded : World :=
  set_tabs_updates [(7%N, loading); (7%N, unloaded)] world_failing.

Definition world_tab_loading : World :=
  set_tabs_updates [(7%N, loading); (7%N, loading)] world_failing.

(* ===================================================================== *)
(** ** The split of the target text *)
(* ===================================================================== *)

Lemma split_from_cons seg c l :
  split_from seg (c :: l) =
  match match_sep (c :: l) with
  | Some rest => seg :: split_from [] rest
  | None => split_from (seg ++ [c]) l
  end.
Proof.
  simp split_from.
  generalize (Logic.inspect (match_sep (c :: l))).
  intros [[rest|] H]; simpl; rewrite H; reflexivity.
Qed.

Lemma skip_spaces_spec l :
  exists ws, l = ws ++ skip_spaces l /\ Forall (fun c => is_space c = true) ws.
Proof.
  induction l as [|c l (ws & Hl & Hws)]; simpl.
  - exists []. split; [done|constructor].
  - destruct (is_space c) eqn:Hc.
    + exists (c :: ws). split; [simpl; congruence|by constructor].
    + exists []. split; [done|constructor].
Qed.

Lemma match_sep_spec l rest :
  match_sep l = Some rest ->
  exists ws ws', l = ws ++ slash :: ws' ++ rest
    /\ Forall (fun c => is_space c = true) ws
    /\ Forall (fun c => is_space c = true) ws'.
Proof.
  unfold match_sep. intros H.
  destruct (skip_spaces_spec l) as (ws & Hl & Hws).
  destruct (skip_spaces l) as [|c r]; [discriminate|].
  destruct (N.eqb_spec c slash) as [->|]; [|discriminate].
  injection H as <-.
  destruct (skip_spaces_spec r) as (ws' & Hr & Hws').
  exists ws, ws'. split; [|done]. rewrite Hl at 1. by rewrite Hr at 1.
Qed.

(** The head of the segments, with the segment under construction [seg]:
    white space at the end of [seg] was tried as the start of a match and
    did not start one. *)
Lemma split_from_head seg l :
  slash ∉ seg ->
  (forall c, last seg = Some c -> is_space c = true -> match_sep l = None) ->
  exists a, head (split_from seg l) = Some (seg ++ a) /\ (slash ∉ a) /\
    (a = l \/ exists ws rest, l = a ++ ws ++ slash :: rest
       /\ Forall (fun c => is_space c = true) ws
       /\ no_trailing_space (seg ++ a)).
Proof.
  revert seg. induction l as [|c l IH]; intros seg Hseg Hinv.
  - exists []. simp split_from. simpl. rewrite app_nil_r.
    split; [done|]. split; [apply not_elem_of_nil|by left].
  - rewrite split_from_cons. destruct (match_sep (c :: l)) as [rest|] eqn:Hm.
    + exists []. simpl. rewrite app_nil_r. split; [done|].
      split; [apply not_elem_of_nil|]. right.
      apply match_sep_spec in Hm as (ws & ws' & Hl & Hws & _).
      exists ws, (ws' ++ rest). split; [done|]. split; [done|].
      intros c' Hc'. destruct (is_space c') eqn:Hsp; [|done].
      specialize (Hinv c' Hc' Hsp). congruence.
    + assert (Hc : c <> slash).
      { intros ->. unfold match_sep in Hm. simpl in Hm. discriminate. }
      destruct (IH (seg ++ [c])) as (a & Hh & Ha & Hcase).
      * rewrite elem_of_app, list_elem_of_singleton. intros [?|?]; congruence.
      * intros c'. rewrite last_snoc. intros [= <-] Hsp.
        unfold match_sep in *. simpl in Hm. by rewrite Hsp in Hm.
      * exists (c :: a). rewrite <- app_assoc in Hh. simpl in Hh.
        split; [done|]. split.
        { rewrite elem_of_cons. intros [?|?]; congruence. }
        destruct Hcase as [->|(ws & rest & -> & Hws & Hnt)]; [by left|right].
        exists ws, rest. split; [done|]. split; [done|].
        by rewrite <- app_assoc in Hnt.
Qed.

Lemma split_first_segment s :
  exists m, split s !! 0 = Some m /\ first_segment s m.
Proof.
  destruct (split_from_head [] s) as (a & Hh & Ha & Hcase).
  - apply not_elem_of_nil.
  - discriminate.
  - exists a. unfold split. rewrite <- head_lookup. split; [done|].
    split; [done|].
    destruct Hcase as [->|(ws & rest & -> & ? & ?)]; [by left|right].
    by exists ws, rest.
Qed.

Lemma space_not_slash ws :
  Forall (fun c => is_space c = true) ws -> slash ∉ ws.
Proof.
  intros H Hin. rewrite Forall_forall in H. apply H in Hin. discriminate.
Qed.

Lemma first_occurrence {A} (x : A) a b r r' :
  x ∉ a -> x ∉ b -> a ++ x :: r = b ++ x :: r' -> a = b.
Proof.
  revert b. induction a as [|y a IH]; intros [|z b] Ha Hb H; simpl in *.
  - done.
  - injection H as -> _. exfalso. apply Hb. left.
  - injection H as -> _. exfalso. apply Ha. left.
  - injection H as -> H. f_equal. apply IH; [| |done].
    + intros ?. apply Ha. by right.
    + intros ?. apply Hb. by right.
Qed.

Lemma trimmed_prefix m1 m2 ws1 ws2 :
  no_trailing_space m1 -> no_trailing_space m2 ->
  Forall (fun c => is_space c = true) ws1 ->
  Forall (fun c => is_space c = true) ws2 ->
  m1 ++ ws1 = m2 ++ ws2 -> m1 = m2.
Proof.
  assert (Hone : forall m k ws, no_trailing_space (m ++ k) ->
            Forall (fun c => is_space c = true) (k ++ ws) -> k = []).
  { intros m k ws Hnt Hws.
    destruct (decide (k = [])) as [|Hk]; [done|].
    apply exists_last in Hk as (k' & c & ->).
    rewrite app_assoc in Hnt. specialize (Hnt c (last_snoc _ _)).
    rewrite Forall_forall in Hws. rewrite Hws in Hnt; [done|].
    rewrite !elem_of_app, list_elem_of_singleton. auto. }
  intros H1 H2 Hw1 Hw2 Heq.
  apply app_eq_inv in Heq as [(k & -> & ->)|(k & -> & ->)].
  - rewrite (Hone m2 k ws1 H1 Hw2). by rewrite app_nil_r.
  - rewrite (Hone m1 k ws2 H2 Hw1). by rewrite app_nil_r.
Qed.

(** The first segment is determined by the string. *)
Lemma first_segment_unique s m1 m2 :
  first_segment s m1 -> first_segment s m2 -> m1 = m2.
Proof.
  intros [Hs1 H1] [Hs2 H2].
  destruct H1 as [->|(ws1 & r1 & E1 & Hw1 & Hn1)];
    destruct H2 as [->|(ws2 & r2 & E2 & Hw2 & Hn2)]; [done| | |].
  - exfalso. apply Hs1. rewrite E2, !elem_of_app, elem_of_cons. auto.
  - exfalso. apply Hs2. rewrite E1, !elem_of_app, elem_of_cons. auto.
  - rewrite E1 in E2. rewrite !app_assoc in E2.
    apply first_occurrence in E2.
    + by apply trimmed_prefix in E2.
    + rewrite elem_of_app. intros [?|?]; [done|]. by apply space_not_slash in Hw1.
    + rewrite elem_of_app. intros [?|?]; [done|]. by apply space_not_slash in Hw2.
Qed.

(* ===================================================================== *)
(** ** What a computation leaves as it was *)
(* ===================================================================== *)

#[global] Instance keeps_preorder {A} (f : World -> A) : PreOrder (keeps f).
Proof.
  split; [intros w; reflexivity|].
  intros w1 w2 w3 H1 H2. unfold keeps in *. congruence.
Qed.

#[global] Instance extends_preorder allowed : PreOrder (extends allowed).
Proof.
  split.
  - intros w. exists []. by rewrite app_nil_r.
  - intros w1 w2 w3 (e1 & H1 & F1) (e2 & H2 & F2). exists (e1 ++ e2).
    rewrite H2, H1, app_assoc. split; [done|]. by apply Forall_app.
Qed.

Section Preserves.
Context (P : relation World) `{!PreOrder P}.

Lemma preserves_ret {A} (a : A) : preserves P (mret a).
Proof. intros w. reflexivity. Qed.

Lemma preserves_reject {A} e : preserves P (@reject A e).
Proof. intros w. reflexivity. Qed.

Lemma preserves_gets {A} (f : World -> A) : preserves P (gets f).
Proof. intros w. reflexivity. Qed.

Lemma preserves_lift {A} (r : res A) : preserves P (lift r).
Proof. destruct r; intros w; reflexivity. Qed.

Lemma preserves_bind {A B} (m : M A) (k : A -> M B) :
  preserves P m -> (forall a, preserves P (k a)) -> preserves P (m ≫= k).
Proof.
  intros Hm Hk w. unfold mbind, M_bind. specialize (Hm w).
  destruct (m w) as [[a|e|] w1]; simpl in *; [|done..].
  etransitivity; [exact Hm|apply Hk].
Qed.

Lemma preserves_try_catch {A} (m : M A) (h : Error -> M A) :
  preserves P m -> (forall e, preserves P (h e)) ->
  preserves P (try_catch m h).
Proof.
  intros Hm Hh w. unfold try_catch. specialize (Hm w).
  destruct (m w) as [[a|e|] w1]; simpl in *; [done| |done].
  etransitivity; [exact Hm|apply Hh].
Qed.

Lemma preserves_modify (f : World -> World) :
  (forall w, P w (f w)) -> preserves P (modify f).
Proof. intros H w. apply H. Qed.

Lemma preserves_next {R} (script : World -> list R) rest :
  (forall l w, P w (rest l w)) -> preserves P (next script rest).
Proof.
  intros H w. unfold next. destruct (script w); simpl; [reflexivity|apply H].
Qed.

Lemma preserves_emit e :
  (forall w, P w (set_trace (trace w ++ [e]) w)) -> preserves P (emit e).
Proof. intros H w. apply H. Qed.

Lemma preserves_tabs_onUpdated tabId :
  (forall l w, P w (set_tabs_updates l w)) -> preserves P (tabs_onUpdated tabId).
Proof.
  intros H w. unfold tabs_onUpdated.
  destruct (tabUpdateListener _ _) as [[??]|]; apply H.
Qed.
End Preserves.

Lemma extends_emit allowed e w :
  allowed e = true -> extends allowed w (set_trace (trace w ++ [e]) w).
Proof. intros H. exists [e]. split; [done|]. by constructor. Qed.

Lemma extends_same allowed w w' :
  trace w' = trace w -> extends allowed w w'.
Proof. intros H. exists []. by rewrite app_nil_r. Qed.

Ltac preserves_step :=
  lazymatch goal with
  | |- preserves _ (mbind _ _) =>
      apply preserves_bind; [typeclasses eauto| |intros ?]
  | |- preserves _ (try_catch _ _) =>
      apply preserves_try_catch; [typeclasses eauto| |intros ?]
  | |- preserves _ (mret _) => apply preserves_ret; typeclasses eauto
  | |- preserves _ (reject _) => apply preserves_reject; typeclasses eauto
  | |- preserves _ (gets _) => apply preserves_gets; typeclasses eauto
  | |- preserves _ (lift _) => apply preserves_lift; typeclasses eauto
  | |- preserves _ (modify _) => apply preserves_modify; intros ?
  | |- preserves _ (next _ _) =>
      apply preserves_next; [typeclasses eauto|intros ? ?]
  | |- preserves _ (tabs_onUpdated _) =>
      apply preserves_tabs_onUpdated; intros ? ?
  | |- preserves _ (emit _) => apply preserves_emit; intros ?
  | |- preserves _ (match ?x with _ => _ end) => destruct x
  | |- keeps _ _ _ => reflexivity
  | |- extends _ _ (set_trace (trace _ ++ [_]) _) =>
      apply extends_emit; reflexivity
  | |- extends _ _ _ => apply extends_same; reflexivity
  end.

Create HintDb frame.

Ltac preserves_tac :=
  repeat first
    [ preserves_step
    | solve [eauto with frame]
    | progress unfold tabs_create, axios, get_guid, AUDIO_set_src,
        AUDIO_play, getTime ].

Lemma store_tokens_keeps {A} (f : World -> A) cookies :
  (forall v w, f (set_qtk v w) = f w) -> (forall v w, f (set_qtv v w) = f w) ->
  forall w, f (store_tokens cookies w) = f w.
Proof.
  intros Hk Hv. unfold store_tokens.
  induction cookies as [|c l IH] using rev_ind; intros w; [done|].
  rewrite foldl_snoc. repeat case_bool_decide; rewrite ?Hk, ?Hv; apply IH.
Qed.

Lemma requestHomePage_extends allowed :
  (forall e, is_tab_event e = true -> allowed e = true) ->
  preserves (extends allowed) requestHomePage.
Proof.
  intros Hall. unfold requestHomePage. unfold tabs_create.
  repeat first [preserves_step | apply extends_emit; apply Hall; reflexivity].
Qed.

Lemma requestHomePage_keeps_qtk : preserves (keeps qtk) requestHomePage.
Proof. unfold requestHomePage. preserves_tac. Qed.

Lemma requestHomePage_keeps_qtv : preserves (keeps qtv) requestHomePage.
Proof. unfold requestHomePage. preserves_tac. Qed.

Lemma requestHomePage_keeps_axios_replies :
  preserves (keeps axios_replies) requestHomePage.
Proof. unfold requestHomePage. preserves_tac. Qed.

Lemma requestHomePage_keeps_cookies_getAll_replies :
  preserves (keeps cookies_getAll_replies) requestHomePage.
Proof. unfold requestHomePage. preserves_tac. Qed.

#[global] Hint Resolve requestHomePage_keeps_qtk requestHomePage_keeps_qtv
  requestHomePage_keeps_axios_replies
  requestHomePage_keeps_cookies_getAll_replies : frame.

Lemma updateTokens_keeps_axios_replies :
  preserves (keeps axios_replies) updateTokens.
Proof.
  unfold updateTokens. preserves_tac. unfold keeps. by apply store_tokens_keeps.
Qed.

Lemma updateTokens_extends allowed :
  (forall e, is_refresh_event e = true -> allowed e = true) ->
  preserves (extends allowed) updateTokens.
Proof.
  intros Hall. unfold updateTokens.
  repeat first
    [ preserves_step
    | apply requestHomePage_extends; intros e He; apply Hall;
      unfold is_refresh_event; by rewrite He
    | apply extends_emit; apply Hall; reflexivity ].
  apply extends_same. by apply store_tokens_keeps.
Qed.

(* ===================================================================== *)
(** ** The parse and the control flow *)
(* ===================================================================== *)

Ltac map_lookup :=
  repeat first
    [ rewrite lookup_insert_eq
    | rewrite lookup_insert_ne by (intros [=])
    | rewrite lookup_empty ].

Lemma res_bind_OK {A B} (r : res A) (k : A -> res B) b :
  r ≫= k = OK b -> exists a, r = OK a /\ k a = OK b.
Proof. destruct r as [a|e]; [eauto|discriminate]. Qed.

Lemma deref_OK {A} (o : option A) a : deref o = OK a -> o = Some a.
Proof. destruct o; simpl; congruence. Qed.

Lemma returned_OK {A} (r : res A) : returned r = true -> exists a, r = OK a.
Proof. destruct r; [eauto|discriminate]. Qed.

Lemma lift_resolved {A} (r : res A) a w w' :
  lift r w = (Resolved a, w') -> r = OK a /\ w' = w.
Proof. destruct r; simpl; intros [= <- <-]; done. Qed.

Lemma table_roundtrip :
  map_Forall (fun tag code => CODE_TO_LAN !! code = Some tag) LAN_TO_CODE.
Proof. apply map_Forall_to_list. vm_compute. repeat constructor. Qed.

Lemma bind_run {A B} (m : M A) (k : A -> M B) w :
  (m ≫= k) w
  = match m w with
    | (Resolved a, w') => k a w'
    | (Rejected e, w') => (Rejected e, w')
    | (Pending, w') => (Pending, w')
    end.
Proof. reflexivity. Qed.

Section Properties.
Variable JSON_parse : jsstring -> option ExamplesJson.
Variable encodeURIComponent : jsstring -> option jsstring.

Lemma parseResult_fields response text result :
  parseResult JSON_parse response text = OK result ->
  exists r0 tt,
    provider_record response = Some r0 /\
    targetText r0 = Some tt /\
    result !! "originalText" =
      Some (if missing (sourceText r0) then FString text
            else of_option (sourceText r0)) /\
    result !! "mainMeaning" = Some (of_option (split tt !! 0)) /\
    (is_Some (result !! "sPronunciation") ->
       exists item0, provider_suggestion response = Some item0
                     /\ truthy (prx_ph_AmE item0) = true) /\
    (is_Some (result !! "examples") ->
       exists item0, provider_suggestion response = Some item0
                     /\ truthy (examples_json item0) = true) /\
    (is_Some (result !! "detailedMeanings") ->
       exists item0 items, provider_abstract response = Some (item0 :: items)).
Proof.
  unfold parseResult, provider_record, provider_suggestion, provider_abstract.
  intros H.
  apply res_bind_OK in H as (t & Ht%deref_OK & H).
  apply res_bind_OK in H as (rs & Hrs%deref_OK & H).
  apply res_bind_OK in H as (r0 & Hr0%deref_OK & H).
  apply res_bind_OK in H as (tt & Htt%deref_OK & H).
  apply res_bind_OK in H as (result1 & H1 & H).
  exists r0, tt. rewrite Ht. simpl. rewrite Hrs. simpl.
  split; [done|]. split; [done|].
  destruct (suggest response) as [sg|]; simpl in *;
    [destruct (suggest_data sg) as [[|item0 items]|]; simpl in *|].
  2: destruct (truthy (prx_ph_AmE item0)) eqn:Hp;
     (destruct (truthy (examples_json item0)) eqn:He;
      [apply res_bind_OK in H1 as (parsed & _ & H1);
       apply res_bind_OK in H1 as (its & _ & H1)|]).
  all: injection H1 as <-.
  all: destruct (dict response) as [dc|]; simpl in *;
    [destruct (abstract dc) as [[|d0 ds]|]; simpl in *|].
  all: try (apply res_bind_OK in H as (ms & _ & H)).
  all: injection H as <-.
  all: destruct (missing (sourceText r0)); map_lookup.
  all: repeat split; try done.
  all: try (intros [? [=]]).
  all: eauto.
Qed.

(** The request: it takes the next answer of the HTTP client and touches
    nothing of the adapter. *)
Lemma post_translate_resolved text from to w r w1 :
  post_translate text from to w = (Resolved r, w1) ->
  exists rest,
    axios_replies w = inl r :: rest /\ axios_replies w1 = rest /\
    qtk w1 = qtk w /\ qtv w1 = qtv w /\
    trace w1 = trace w ++
      [Axios (translate_request text from to (clock w (clock_reads w))
                (qtv w) (qtk w))].
Proof.
  unfold post_translate, axios, getTime, gets, modify, emit, next, reject,
    mbind, M_bind, mret, M_ret.
  destruct w as [f1 f2 f3 f4 replies f6 f7 f8 f9 f10 f11 f12 f13 tr]; simpl.
  destruct replies as [|[r'|msg] rest]; simpl; intros [= <- <-]; simpl.
  eauto 10.
Qed.

Lemma post_translate_trace text from to w :
  exists req, trace (snd (post_translate text from to w))
              = trace w ++ [Axios req].
Proof.
  unfold post_translate, axios, getTime, gets, modify, emit, next, reject,
    mbind, M_bind, mret, M_ret.
  destruct w as [f1 f2 f3 f4 replies f6 f7 f8 f9 f10 f11 f12 f13 tr]; simpl.
  destruct replies as [|[r'|msg] rest]; simpl; eauto.
Qed.

Lemma translate_first_attempt text from to w r w1 :
  post_translate text from to w = (Resolved r, w1) ->
  succeeded 0 r = true ->
  translate JSON_parse text from to w
  = lift (parseResult JSON_parse (data r) text) w1.
Proof.
  intros Hp Hs. unfold translate. rewrite translateOnce_equation_1.
  unfold mbind at 1, M_bind at 1. rewrite Hp, Hs. reflexivity.
Qed.

Lemma translate_second_attempt text from to w r1 w1 w2 r2 w3 :
  post_translate text from to w = (Resolved r1, w1) ->
  succeeded 0 r1 = false ->
  updateTokens w1 = (Resolved tt, w2) ->
  post_translate text from to w2 = (Resolved r2, w3) ->
  translate JSON_parse text from to w
  = if succeeded 1 r2
    then lift (parseResult JSON_parse (data r2) text) w3
    else (Rejected (ApiError (js "API_ERR") (status r2)
            (js "Translate failed, please contact developers to report problem.")
            (CauseResponse r2)), w3).
Proof.
  intros Hp1 Hs1 Hu Hp2. unfold translate. rewrite translateOnce_equation_1.
  unfold mbind at 1, M_bind at 1. rewrite Hp1, Hs1.
  destruct (decide (0 < MAX_RETRY)) as [_|Hn]; [|unfold MAX_RETRY in Hn; lia].
  unfold mbind at 1, M_bind at 1. rewrite Hu.
  rewrite translateOnce_equation_1.
  unfold mbind at 1, M_bind at 1. rewrite Hp2.
  destruct (succeeded 1 r2); [done|].
  destruct (decide (1 < MAX_RETRY)) as [Hn|_]; [unfold MAX_RETRY in Hn; lia|].
  reflexivity.
Qed.

(** When the refresh does not resolve, no second request is sent:
    [translate] ends as the refresh does. *)
Lemma translate_refresh_not_resolved text from to w r1 w1 o w2 :
  post_translate text from to w = (Resolved r1, w1) ->
  succeeded 0 r1 = false ->
  updateTokens w1 = (o, w2) ->
  o <> Resolved tt ->
  translate JSON_parse text from to w
  = (match o with Rejected e => Rejected e | _ => Pending end, w2).
Proof.
  intros Hp1 Hs1 Hu Ho. unfold translate. rewrite translateOnce_equation_1.
  rewrite bind_run, Hp1, Hs1.
  destruct (decide (0 < MAX_RETRY)) as [_|Hn]; [|unfold MAX_RETRY in Hn; lia].
  rewrite bind_run, Hu. by destruct o as [[]|e|].
Qed.

(** Every result of [translate] is the parse of an answer of the
    provider. *)
Lemma translate_resolved text from to w result w' :
  translate JSON_parse text from to w = (Resolved result, w') ->
  exists response,
    inl response ∈ axios_replies w /\
    parseResult JSON_parse (data response) text = OK result.
Proof.
  intros H.
  destruct (post_translate text from to w) as [[r1|e|] w1] eqn:Hp1.
  2,3: unfold translate in H; rewrite translateOnce_equation_1 in H;
       unfold mbind at 1, M_bind at 1 in H; rewrite Hp1 in H; discriminate.
  destruct (post_translate_resolved text from to w r1 w1 Hp1) as (rest & Hw & Hw1 & _).
  destruct (succeeded 0 r1) eqn:Hs1.
  - rewrite (translate_first_attempt text from to w r1 w1 Hp1 Hs1) in H.
    apply lift_resolved in H as [H _]. exists r1. split; [|done].
    rewrite Hw. left.
  - destruct (updateTokens w1) as [[[]|e|] w2] eqn:Hu.
    2,3: unfold translate in H; rewrite translateOnce_equation_1 in H;
         unfold mbind at 1, M_bind at 1 in H; rewrite Hp1, Hs1 in H;
         destruct (decide (0 < MAX_RETRY)); [|discriminate];
         unfold mbind at 1, M_bind at 1 in H; rewrite Hu in H; discriminate.
    pose proof (updateTokens_keeps_axios_replies w1) as Hk.
    rewrite Hu in Hk. unfold keeps in Hk. simpl in Hk.
    destruct (post_translate text from to w2) as [[r2|e|] w3] eqn:Hp2.
    2,3: unfold translate in H; rewrite translateOnce_equation_1 in H;
         unfold mbind at 1, M_bind at 1 in H; rewrite Hp1, Hs1 in H;
         destruct (decide (0 < MAX_RETRY)); [|discriminate];
         unfold mbind at 1, M_bind at 1 in H; rewrite Hu in H;
         rewrite translateOnce_equation_1 in H;
         unfold mbind at 1, M_bind at 1 in H; rewrite Hp2 in H; discriminate.
    rewrite (translate_second_attempt text from to w r1 w1 w2 r2 w3 Hp1 Hs1 Hu Hp2) in H.
    destruct (succeeded 1 r2); [|discriminate].
    apply lift_resolved in H as [H _]. exists r2. split; [|done].
    destruct (post_translate_resolved text from to w2 r2 w3 Hp2) as (rest2 & Hw2 & _).
    rewrite Hw. right. rewrite <- Hw1, <- Hk, Hw2. left.
Qed.

(** *** The credential refresh, case by case *)

(** What [requestHomePage] does, by the answers of the browser. *)
Lemma requestHomePage_cases w :
  match tabs_create_replies w with
  | [] => fst (requestHomePage w) = Pending
  | inr msg :: _ =>
      fst (requestHomePage w) = Rejected (Message msg) /\
      trace (snd (requestHomePage w)) = trace w ++ [TabsCreate BASE_URL false]
  | inl tabId :: _ =>
      match tabUpdateListener tabId (tabs_updates w) with
      | None => fst (requestHomePage w) = Pending
      | Some (st, _) =>
          match tabs_remove_replies w with
          | [] => fst (requestHomePage w) = Pending
          | lastError :: _ =>
              fst (requestHomePage w)
              = (if bool_decide (st = complete) then Resolved tt
                 else Rejected Undefined) /\
              trace (snd (requestHomePage w))
              = trace w
                ++ [TabsCreate BASE_URL false; OnUpdatedAddListener;
                    TabsRemove tabId]
                ++ match lastError with Some msg => [Log msg] | None => [] end
                ++ [OnUpdatedRemoveListener]
          end
      end
  end.
Proof.
  unfold requestHomePage, tabs_create, tabs_onUpdated, emit, next, reject,
    mbind, M_bind, mret, M_ret.
  destruct w as [f1 f2 f3 f4 f5 creates_ updates_ removes_ f9 f10 f11 f12 f13 tr];
    simpl.
  destruct creates_ as [|[tabId|msg] creates]; simpl; [done| |done].
  destruct (tabUpdateListener tabId updates_) as [[st updates]|]; simpl;
    [|done].
  destruct removes_ as [|[msg|] removes]; simpl; [done| |].
  all: destruct (bool_decide (st = complete)); simpl.
  all: by rewrite <- ?app_assoc.
Qed.

Lemma requestHomePage_resolved w w1 :
  requestHomePage w = (Resolved tt, w1) ->
  exists tabId creates updates lastError removes,
    tabs_create_replies w = inl tabId :: creates /\
    tabUpdateListener tabId (tabs_updates w) = Some (complete, updates) /\
    tabs_remove_replies w = lastError :: removes /\
    trace w1 = trace w
               ++ [TabsCreate BASE_URL false; OnUpdatedAddListener;
                   TabsRemove tabId]
               ++ match lastError with Some msg => [Log msg] | None => [] end
               ++ [OnUpdatedRemoveListener].
Proof.
  intros H. pose proof (requestHomePage_cases w) as Hc. rewrite H in Hc.
  simpl in Hc.
  destruct (tabs_create_replies w) as [|[tabId|msg] creates] eqn:E1;
    [done| |by destruct Hc].
  destruct (tabUpdateListener tabId (tabs_updates w)) as [[st updates]|] eqn:E2;
    [|done].
  destruct (tabs_remove_replies w) as [|lastError removes] eqn:E3; [done|].
  destruct Hc as [Ho Ht]. destruct st; try discriminate Ho.
  by exists tabId, creates, updates, lastError, removes.
Qed.

Lemma js_qtv_qtk : js "qtv" <> js "qtk".
Proof. discriminate. Qed.

Lemma store_tokens_qtk cookies w :
  qtk (store_tokens cookies w) = last_cookie (js "qtk") cookies (qtk w).
Proof.
  unfold store_tokens, last_cookie. revert w.
  induction cookies as [|c l IH]; intros w; simpl; [done|].
  rewrite IH. f_equal. repeat case_bool_decide; try done.
  pose proof js_qtv_qtk. congruence.
Qed.

Lemma store_tokens_qtv cookies w :
  qtv (store_tokens cookies w) = last_cookie (js "qtv") cookies (qtv w).
Proof.
  unfold store_tokens, last_cookie. revert w.
  induction cookies as [|c l IH]; intros w; simpl; [done|].
  rewrite IH. f_equal. repeat case_bool_decide; done.
Qed.

Lemma last_cookie_absent key cookies old :
  (forall c, c ∈ cookies -> name c <> key) ->
  last_cookie key cookies old = old.
Proof.
  unfold last_cookie. revert old.
  induction cookies as [|c l IH]; intros old H; simpl; [done|].
  rewrite bool_decide_eq_false_2 by (apply H; left).
  apply IH. intros c' Hc'. apply H. by right.
Qed.

Lemma last_cookie_present key cookies old :
  last_cookie key cookies old <> old ->
  exists c, c ∈ cookies /\ name c = key /\ last_cookie key cookies old = value c.
Proof.
  unfold last_cookie.
  induction cookies as [|c l IH] using rev_ind; [done|].
  rewrite foldl_snoc. case_bool_decide as Hc.
  - intros _. exists c. rewrite elem_of_app, list_elem_of_singleton. auto.
  - intros H. destruct (IH H) as (c' & Hin & Hn & Hv). exists c'.
    rewrite elem_of_app. auto.
Qed.

(** [updateTokens] after its [requestHomePage]. *)
Lemma updateTokens_after_home w w1 cookies getalls :
  requestHomePage w = (Resolved tt, w1) ->
  cookies_getAll_replies w1 = cookies :: getalls ->
  exists w2,
    updateTokens w = (Resolved tt, w2) /\
    trace w2 = trace w1 ++ [CookiesGetAll BASE_URL] /\
    qtk w2 = last_cookie (js "qtk") cookies (qtk w) /\
    qtv w2 = last_cookie (js "qtv") cookies (qtv w).
Proof.
  intros Hh Hc.
  pose proof (requestHomePage_keeps_qtk w) as Hk.
  pose proof (requestHomePage_keeps_qtv w) as Hv.
  rewrite Hh in Hk, Hv. unfold keeps in *. simpl in *.
  unfold updateTokens. unfold mbind at 1, M_bind at 1. rewrite Hh.
  unfold emit, next, modify, mbind, M_bind. simpl. rewrite Hc.
  eexists. split; [reflexivity|].
  rewrite store_tokens_qtk, store_tokens_qtv.
  rewrite (store_tokens_keeps trace) by done. simpl. by rewrite Hk, Hv.
Qed.

Lemma updateTokens_resolved w w2 :
  updateTokens w = (Resolved tt, w2) ->
  exists w1 cookies getalls,
    requestHomePage w = (Resolved tt, w1) /\
    cookies_getAll_replies w = cookies :: getalls /\
    trace w2 = trace w1 ++ [CookiesGetAll BASE_URL] /\
    qtk w2 = last_cookie (js "qtk") cookies (qtk w) /\
    qtv w2 = last_cookie (js "qtv") cookies (qtv w).
Proof.
  intros H.
  destruct (requestHomePage w) as [[[]|e|] w1] eqn:Hh.
  2,3: unfold updateTokens in H; unfold mbind at 1, M_bind at 1 in H;
       rewrite Hh in H; discriminate.
  pose proof (requestHomePage_keeps_cookies_getAll_replies w) as Hg.
  rewrite Hh in Hg. unfold keeps in Hg. simpl in Hg.
  destruct (cookies_getAll_replies w1) as [|cookies getalls] eqn:Hc.
  { unfold updateTokens in H. unfold mbind at 1, M_bind at 1 in H.
    rewrite Hh in H. unfold emit, next, modify, mbind, M_bind in H.
    simpl in H. rewrite Hc in H. discriminate. }
  destruct (updateTokens_after_home w w1 cookies getalls Hh Hc)
    as (w2' & Hu & Ht & Hk & Hv).
  rewrite Hu in H. injection H as <-.
  exists w1, cookies, getalls. by rewrite <- Hg.
Qed.

Lemma updateTokens_refresh_events w w2 :
  updateTokens w = (Resolved tt, w2) ->
  exists tabId lastError, trace w2 = trace w ++ refresh_events tabId lastError.
Proof.
  intros H. apply updateTokens_resolved in H
    as (w1 & cookies & getalls & Hh & _ & Ht & _).
  apply requestHomePage_resolved in Hh
    as (tabId & creates & updates & lastError & removes & _ & _ & _ & Ht1).
  exists tabId, lastError. rewrite Ht, Ht1. unfold refresh_events.
  by rewrite <- !app_assoc.
Qed.

Lemma refresh_events_counts tabId lastError :
  count is_Axios (refresh_events tabId lastError) = 0 /\
  count is_TabsCreate (refresh_events tabId lastError) = 1 /\
  count is_CookiesGetAll (refresh_events tabId lastError) = 1.
Proof. by destruct lastError. Qed.

Lemma count_app p l1 l2 : count p (l1 ++ l2) = count p l1 + count p l2.
Proof. unfold count. by rewrite filter_app, length_app. Qed.

(* ===================================================================== *)
(** ** The properties *)
(* ===================================================================== *)

(** The one call of [detect]. *)
Lemma detect_trace text w :
  trace (snd (detect text w)) = trace w ++ [Axios (detect_request text)].
Proof.
  unfold detect, axios, emit, next, reject, lift, mbind, M_bind, mret, M_ret.
  destruct w as [f1 f2 f3 f4 replies f6 f7 f8 f9 f10 f11 f12 f13 tr];
    cbn [fst snd axios_replies trace set_trace set_axios_replies].
  destruct replies as [|[r|msg] rest]; [done| |done].
  by destruct (translate_ (data r)).
Qed.

(** C2.  For every canonical language tag of the supported set other
    than "auto", the provider code that [LAN_TO_CODE] gives for the tag is
    mapped back to the same tag by [CODE_TO_LAN]. *)
Theorem lan_code_roundtrip (tag : jsstring) :
  tag ∈ supportedLanguages ->
  tag <> js "auto" ->
  exists code,
    LAN_TO_CODE !! tag = Some code /\ CODE_TO_LAN !! code = Some tag.
Proof.
  intros Hin _. unfold supportedLanguages in Hin.
  apply elem_of_dom in Hin as [code Hcode].
  exists code. split; [done|]. by apply table_roundtrip.
Qed.

(** The reverse lookup gives back "auto" as well. *)
Lemma lan_code_roundtrip_auto :
  LAN_TO_CODE !! js "auto" ≫= (CODE_TO_LAN !!.) = Some (js "auto").
Proof. by vm_compute. Qed.

(** C4.  When [translate] returns a result, the result is the parse of a
    response of the provider, and if the original text of that response
    is absent or empty, the [originalText] field of the result is the
    input text. *)
Theorem translate_original_text_fallback text from to w result w' :
  translate JSON_parse text from to w = (Resolved result, w') ->
  exists response r0,
    inl response ∈ axios_replies w /\
    parseResult JSON_parse (data response) text = OK result /\
    provider_record (data response) = Some r0 /\
    (sourceText r0 = None \/ sourceText r0 = Some [] ->
     result !! "originalText" = Some (FString text)).
Proof.
  intros H. apply translate_resolved in H as (response & Hin & Hp).
  destruct (parseResult_fields _ _ _ Hp) as (r0 & tt & Hr0 & _ & Ho & _).
  exists response, r0. repeat split; try done.
  intros [Hs|Hs]; by rewrite Hs in Ho.
Qed.

(** C5.  Every result that [translate] returns has the fields
    [originalText] and [mainMeaning]; it has [sPronunciation], [examples]
    or [detailedMeanings] only when the field of the response it is taken
    from is there and not empty. *)
Theorem translate_result_fields text from to w result w' :
  translate JSON_parse text from to w = (Resolved result, w') ->
  exists response,
    inl response ∈ axios_replies w /\
    parseResult JSON_parse (data response) text = OK result /\
    (exists o, result !! "originalText" = Some (FString o)) /\
    (exists m, result !! "mainMeaning" = Some (FString m)) /\
    (is_Some (result !! "sPronunciation") ->
     exists item0 p, provider_suggestion (data response) = Some item0
                     /\ prx_ph_AmE item0 = Some p /\ p <> []) /\
    (is_Some (result !! "examples") ->
     exists item0 e, provider_suggestion (data response) = Some item0
                     /\ examples_json item0 = Some e /\ e <> []) /\
    (is_Some (result !! "detailedMeanings") ->
     exists l, provider_abstract (data response) = Some l /\ l <> []).
Proof.
  intros H. apply translate_resolved in H as (response & Hin & Hp).
  destruct (parseResult_fields _ _ _ Hp)
    as (r0 & tt & Hr0 & Htt & Ho & Hm & Hs & He & Hd).
  exists response. repeat split; try done.
  - rewrite Ho. unfold missing, truthy.
    destruct (sourceText r0) as [[|c s]|]; simpl; eauto.
  - rewrite Hm. destruct (split_first_segment tt) as (m & -> & _). eauto.
  - intros Hx. destruct (Hs Hx) as (item0 & Hi & Ht). exists item0.
    destruct (prx_ph_AmE item0) as [[|c p]|]; try discriminate. eauto.
  - intros Hx. destruct (He Hx) as (item0 & Hi & Ht). exists item0.
    destruct (examples_json item0) as [[|c p]|]; try discriminate. eauto.
  - intros Hx. destruct (Hd Hx) as (item0 & items & Hi). eauto.
Qed.

(** C9.  In the parse of a response, [mainMeaning] is the first segment
    of the target text split on a slash with optional white space around
    it: the text up to the white space before the first slash; what
    follows that slash is dropped. *)
Theorem mainMeaning_first_segment response text result :
  parseResult JSON_parse response text = OK result ->
  exists r0 tt m,
    provider_record response = Some r0 /\
    targetText r0 = Some tt /\
    result !! "mainMeaning" = Some (FString m) /\
    split tt !! 0 = Some m /\
    first_segment tt m.
Proof.
  intros Hp.
  destruct (parseResult_fields _ _ _ Hp) as (r0 & tt & Hr0 & Htt & _ & Hm & _).
  destruct (split_first_segment tt) as (m & Hs & Hf).
  exists r0, tt, m. rewrite Hs in Hm. done.
Qed.

(** C10.  Once the home page has been requested, [updateTokens] resolves
    whatever cookies it finds; it leaves [qtk] (or [qtv]) as it was when
    no cookie has that name, and a token that has changed is the value of
    a cookie of its name. *)
Theorem updateTokens_keeps_token_without_cookie w w1 cookies getalls :
  requestHomePage w = (Resolved tt, w1) ->
  cookies_getAll_replies w = cookies :: getalls ->
  exists w2,
    updateTokens w = (Resolved tt, w2) /\
    ((forall c, c ∈ cookies -> name c <> js "qtk") -> qtk w2 = qtk w) /\
    ((forall c, c ∈ cookies -> name c <> js "qtv") -> qtv w2 = qtv w) /\
    (qtk w2 <> qtk w ->
     exists c, c ∈ cookies /\ name c = js "qtk" /\ qtk w2 = value c) /\
    (qtv w2 <> qtv w ->
     exists c, c ∈ cookies /\ name c = js "qtv" /\ qtv w2 = value c).
Proof.
  intros Hh Hc.
  pose proof (requestHomePage_keeps_cookies_getAll_replies w) as Hg.
  rewrite Hh in Hg. unfold keeps in Hg. simpl in Hg. rewrite <- Hg in Hc.
  destruct (updateTokens_after_home w w1 cookies getalls Hh Hc)
    as (w2 & Hu & _ & Hk & Hv).
  exists w2. split; [done|]. rewrite Hk, Hv. repeat split.
  - apply last_cookie_absent.
  - apply last_cookie_absent.
  - apply last_cookie_present.
  - apply last_cookie_present.
Qed.

(** C8.  [detect] adds one call to the trace, its request, whatever the
    text: the source parameter of the request is the provider code of
    "auto", its target parameter is the provider code of "zh-CN", and the
    text is sent as [URLSearchParams] converts it.  When the source code
    that the response reports is the provider code of a tag, [detect]
    returns that tag: the code is mapped back through the table. *)
Theorem detect_request_and_result text w :
  exists req,
    trace (snd (detect text w)) = trace w ++ [Axios req] /\
    param (js "source") (params req) = LAN_TO_CODE !! js "auto" /\
    param (js "target") (params req) = LAN_TO_CODE !! js "zh-CN" /\
    params req = [ (js "source", js "auto"); (js "target", js "zh");
                   (js "sourceText", USVString text) ] /\
    forall response rest t code tag,
      axios_replies w = inl response :: rest ->
      translate_ (data response) = Some t ->
      source t = Some code ->
      LAN_TO_CODE !! tag = Some code ->
      fst (detect text w) = Resolved (Some tag).
Proof.
  exists (detect_request text).
  split; [apply detect_trace|]. do 3 (split; [by vm_compute|]).
  intros response rest t code tag Hw Ht Hs Hc.
  apply table_roundtrip in Hc.
  unfold detect, axios, emit, next, reject, lift, mbind, M_bind, mret, M_ret.
  cbn [fst snd axios_replies trace set_trace set_axios_replies].
  rewrite Hw. cbn [fst snd]. rewrite Ht. cbn [fst snd deref].
  rewrite Hs. simpl. by rewrite Hc.
Qed.


(** *** Pronounce *)

Lemma speak_preserves P `{!PreOrder P} text language :
  (forall e w, is_speak_event e = true -> P w (set_trace (trace w ++ [e]) w)) ->
  (forall l w, P w (set_cookies_get_replies l w)) ->
  (forall l w, P w (set_play_replies l w)) ->
  (forall s p w, P w (set_AUDIO s p w)) ->
  preserves P (speak encodeURIComponent text language).
Proof.
  intros He Hc Hp Ha.
  unfold speak, get_guid, AUDIO_set_src, AUDIO_play.
  repeat first [preserves_step | by apply He | apply Hc | apply Hp | apply Ha].
Qed.

Lemma pronounceOnce_preserves P `{!PreOrder P} text language :
  preserves P (speak encodeURIComponent text language) ->
  preserves P requestHomePage ->
  forall retryCount,
    preserves P (pronounceOnce encodeURIComponent text language retryCount).
Proof.
  intros Hs Hh retryCount.
  remember (MAX_RETRY - retryCount) as k eqn:Hk.
  revert retryCount Hk.
  induction k as [k IH] using lt_wf_ind. intros retryCount ->.
  rewrite pronounceOnce_equation_1.
  apply preserves_try_catch; [done|done|]. intros e.
  destruct (decide (retryCount < MAX_RETRY)) as [Hlt|_].
  - apply preserves_bind; [done|done|]. intros _ w.
    apply (IH (MAX_RETRY - S retryCount)); [lia|done].
  - by apply preserves_reject.
Qed.

Lemma count_none p q evs :
  Forall (fun e => q e = true) evs ->
  (forall e, q e = true -> p e = false) ->
  count p evs = 0.
Proof.
  intros Hq Hpq. unfold count. induction Hq as [|e l He _ IH]; [done|].
  rewrite filter_cons_False; [done|]. rewrite (Hpq e He). done.
Qed.

Lemma stopPronounce_run w :
  stopPronounce w = (Resolved tt, snd (stopPronounce w)) /\
  trace (snd (stopPronounce w))
  = trace w ++ (if AUDIO_paused w then [] else [AudioPause]).
Proof.
  unfold stopPronounce, gets, emit, modify, mbind, M_bind, mret, M_ret.
  destruct (AUDIO_paused w); simpl; by rewrite ?app_nil_r.
Qed.

(** One attempt asks for the cookie first; after that it only sets the
    source and plays. *)
Lemma speak_trace text language w :
  exists evs,
    trace (snd (speak encodeURIComponent text language w))
    = trace w ++ CookiesGet BASE_URL (js "fy_guid") :: evs /\
    Forall (fun e => is_audio_out e = true) evs.
Proof.
  unfold speak, get_guid, AUDIO_set_src, AUDIO_play, emit, next, modify,
    reject, lift, mbind, M_bind, mret, M_ret.
  destruct w as [f1 f2 f3 f4 f5 f6 f7 f8 f9 gets_ plays f12 f13 tr].
  cbn [fst snd cookies_get_replies play_replies trace set_trace
       set_cookies_get_replies set_play_replies set_AUDIO AUDIO_paused
       AUDIO_src].
  destruct gets_ as [|[c|] gets_]; cbn [fst snd trace]; [by exists []| |by exists []].
  destruct (truthy (Some (value c))); cbn [fst snd trace]; [|by exists []].
  destruct (encodeURIComponent text) as [encoded|]; cbn [fst snd trace];
    [|by exists []].
  destruct plays as [|[err|] plays];
    cbn [fst snd cookies_get_replies play_replies trace set_trace
         set_cookies_get_replies set_play_replies set_AUDIO AUDIO_paused
         AUDIO_src];
    rewrite <- !app_assoc; eexists; (split; [reflexivity|repeat constructor]).
Qed.

(** With the cookie there and the text encoded, the attempt sets the
    source and plays, in this order. *)
Lemma speak_trace_play text language w c rest encoded :
  cookies_get_replies w = Some c :: rest ->
  value c <> [] ->
  encodeURIComponent text = Some encoded ->
  trace (snd (speak encodeURIComponent text language w))
  = trace w ++ [CookiesGet BASE_URL (js "fy_guid");
                AudioSetSrc (tts_url language encoded (value c));
                AudioPlay].
Proof.
  intros Hc Hv He.
  unfold speak, get_guid, AUDIO_set_src, AUDIO_play, emit, next, modify,
    reject, lift, mbind, M_bind, mret, M_ret.
  cbn [fst snd cookies_get_replies play_replies trace set_trace
       set_cookies_get_replies set_play_replies set_AUDIO AUDIO_paused
       AUDIO_src].
  rewrite Hc. cbn [fst snd trace]. unfold truthy.
  destruct (value c) as [|u v] eqn:Hval; [done|].
  rewrite He.
  cbn [fst snd cookies_get_replies play_replies trace set_trace
       set_cookies_get_replies set_play_replies set_AUDIO AUDIO_paused
       AUDIO_src].
  destruct (play_replies w) as [|[err|] plays];
    cbn [fst snd cookies_get_replies play_replies trace set_trace
         set_cookies_get_replies set_play_replies set_AUDIO AUDIO_paused
         AUDIO_src];
    by rewrite <- !app_assoc.
Qed.

Lemma pronounceOnce_after_speak P `{!PreOrder P} text language retryCount w :
  preserves P (speak encodeURIComponent text language) ->
  preserves P requestHomePage ->
  P (snd (speak encodeURIComponent text language w))
    (snd (pronounceOnce encodeURIComponent text language retryCount w)).
Proof.
  intros Hs Hh. rewrite pronounceOnce_equation_1. unfold try_catch.
  destruct (speak encodeURIComponent text language w) as [[[]|e|] w1];
    simpl; [done| |done].
  destruct (decide (retryCount < MAX_RETRY)) as [Hlt|_]; [|done].
  apply preserves_bind; [done|done|]. intros _.
  by apply pronounceOnce_preserves.
Qed.

Lemma speak_extends allowed text language :
  (forall e, is_speak_event e = true -> allowed e = true) ->
  preserves (extends allowed) (speak encodeURIComponent text language).
Proof.
  intros Hall. apply speak_preserves; [typeclasses eauto|..].
  - intros e w He. apply extends_emit. by apply Hall.
  - intros. by apply extends_same.
  - intros. by apply extends_same.
  - intros. by apply extends_same.
Qed.

Lemma speak_keeps {A} (f : World -> A) text language :
  (forall t w, f (set_trace t w) = f w) ->
  (forall l w, f (set_cookies_get_replies l w) = f w) ->
  (forall l w, f (set_play_replies l w) = f w) ->
  (forall s p w, f (set_AUDIO s p w) = f w) ->
  preserves (keeps f) (speak encodeURIComponent text language).
Proof.
  intros Ht Hc Hp Ha. apply speak_preserves; [typeclasses eauto|..];
    unfold keeps; auto.
Qed.

(** C7.  A call to [pronounce] while the audio is playing pauses it
    first: the pause is the first call made, it is made once, and the
    source is set and the playback started only after it. *)
Theorem pronounce_pauses_first text language speed w :
  AUDIO_paused w = false ->
  exists evs,
    trace (snd (pronounce encodeURIComponent text language speed w))
    = trace w ++ AudioPause :: evs /\
    count is_AudioPause evs = 0 /\
    forall c rest encoded,
      cookies_get_replies w = Some c :: rest ->
      value c <> [] ->
      encodeURIComponent text = Some encoded ->
      exists evs',
        evs = CookiesGet BASE_URL (js "fy_guid")
              :: AudioSetSrc (tts_url language encoded (value c))
              :: AudioPlay :: evs'.
Proof.
  intros Hp. destruct (stopPronounce_run w) as [Hrun Ht0]. rewrite Hp in Ht0.
  set (w0 := snd (stopPronounce w)) in *.
  assert (Hfin : pronounce encodeURIComponent text language speed w
                 = pronounceOnce encodeURIComponent text language 0 w0).
  { unfold pronounce. by rewrite bind_run, Hrun. }
  rewrite Hfin.
  assert (Hattempt : forall e, is_attempt_event e = true -> is_AudioPause e = false).
  { by intros []. }
  assert (Hs : preserves (extends is_attempt_event)
                 (speak encodeURIComponent text language)).
  { apply speak_extends. intros e He. unfold is_attempt_event. by rewrite He. }
  assert (Hh : preserves (extends is_attempt_event) requestHomePage).
  { apply requestHomePage_extends. intros e He. unfold is_attempt_event.
    rewrite He. by destruct (is_speak_event e). }
  destruct (pronounceOnce_preserves (extends is_attempt_event) text language
              Hs Hh 0 w0) as (evs & Hevs & Hall).
  exists evs. split; [|split].
  - rewrite Hevs, Ht0. by rewrite <- app_assoc.
  - by apply (count_none _ is_attempt_event).
  - intros c rest encoded Hc Hv He.
    assert (Hc0 : cookies_get_replies w0 = Some c :: rest).
    { subst w0. unfold stopPronounce, gets, emit, modify, mbind, M_bind,
        mret, M_ret. rewrite Hp. exact Hc. }
    pose proof (speak_trace_play text language w0 c rest encoded Hc0 Hv He)
      as Hsp.
    destruct (pronounceOnce_after_speak (extends is_attempt_event)
                text language 0 w0 Hs Hh) as (evs' & Hevs' & _).
    exists evs'. rewrite Hsp in Hevs'. rewrite Hevs in Hevs'.
    rewrite <- app_assoc in Hevs'. by apply app_inv_head in Hevs'.
Qed.

(** The causes of a failed attempt: the cookie is missing, the text cannot
    be encoded, or the playback fails. *)
Lemma speak_rejected text language w e w1 :
  speak encodeURIComponent text language w = (Rejected e, w1) ->
  e = Message (js "Tencent guid not found!") \/ e = URIError
  \/ exists name, e = MediaError name.
Proof.
  unfold speak, get_guid, AUDIO_set_src, AUDIO_play, emit, next, modify,
    reject, lift, mbind, M_bind, mret, M_ret.
  cbn [fst snd cookies_get_replies play_replies trace set_trace
       set_cookies_get_replies set_play_replies set_AUDIO AUDIO_paused
       AUDIO_src].
  destruct (cookies_get_replies w) as [|[c|] gets_]; [done| |intros [= <- _]; auto].
  destruct (truthy (Some (value c))); [|intros [= <- _]; auto].
  destruct (encodeURIComponent text) as [encoded|]; [|intros [= <- _]; auto].
  cbn [fst snd cookies_get_replies play_replies trace set_trace
       set_cookies_get_replies set_play_replies set_AUDIO AUDIO_paused
       AUDIO_src].
  destruct (play_replies w) as [|[err|] plays]; [done| |done].
  intros [= <- _]. eauto.
Qed.

(** When the request of the home page does not resolve, no second attempt
    is made: [pronounce] ends as that request does. *)
Lemma pronounce_reload_not_resolved text language speed w e1 w1 o w2 :
  speak encodeURIComponent text language (snd (stopPronounce w))
  = (Rejected e1, w1) ->
  requestHomePage w1 = (o, w2) ->
  o <> Resolved tt ->
  pronounce encodeURIComponent text language speed w
  = (match o with Rejected e => Rejected e | _ => Pending end, w2).
Proof.
  intros Hs1 Hh Ho. destruct (stopPronounce_run w) as [Hrun _].
  unfold pronounce. rewrite bind_run, Hrun.
  rewrite pronounceOnce_equation_1. unfold try_catch. rewrite Hs1.
  destruct (decide (0 < MAX_RETRY)) as [_|Hn]; [|unfold MAX_RETRY in Hn; lia].
  rewrite bind_run, Hh. by destruct o as [[]|e|].
Qed.

Lemma pronounce_preserves P `{!PreOrder P} text language speed :
  (forall w, P w (snd (stopPronounce w))) ->
  preserves P (speak encodeURIComponent text language) ->
  preserves P requestHomePage ->
  preserves P (pronounce encodeURIComponent text language speed).
Proof.
  intros H0 Hs Hh. unfold pronounce.
  apply preserves_bind; [done|exact H0|]. intros _.
  by apply pronounceOnce_preserves.
Qed.

Lemma stopPronounce_keeps {A} (f : World -> A) w :
  (forall t w, f (set_trace t w) = f w) ->
  (forall s p w, f (set_AUDIO s p w) = f w) ->
  f (snd (stopPronounce w)) = f w.
Proof.
  intros Ht Ha. unfold stopPronounce, gets, emit, modify, mbind, M_bind,
    mret, M_ret.
  destruct (AUDIO_paused w); simpl; [done|]. by rewrite Ha, Ht.
Qed.

(** C3 (amended).  When an attempt of [pronounce] fails, the adapter
    requests the home page of the provider again, which renews the cookies
    of the browser but reads no token, and when that request resolves it
    makes one more attempt; when this one fails too, [pronounce] is
    rejected with the structured error: the tag "API_ERR", the code 0, a
    message, and the error of the last attempt as raw cause.  The stored
    [qtk] and [qtv] are those of before the call. *)
Theorem pronounce_retries_once_then_api_error
    text language speed w e1 w1 w2 e2 w3 :
  speak encodeURIComponent text language (snd (stopPronounce w))
  = (Rejected e1, w1) ->
  requestHomePage w1 = (Resolved tt, w2) ->
  speak encodeURIComponent text language w2 = (Rejected e2, w3) ->
  pronounce encodeURIComponent text language speed w
  = (Rejected (ApiError (js "API_ERR") 0
       (js "Pronounce failed, please contact developers to report problem.")
       (CauseError e2)), w3)
  /\ qtk w3 = qtk w /\ qtv w3 = qtv w
  /\ cookies_getAll_replies w3 = cookies_getAll_replies w
  /\ exists evs,
       trace w3 = trace w ++ evs /\
       count is_CookiesGetAll evs = 0 /\
       count is_TabsCreate evs = 1 /\
       count is_CookiesGet evs = 2.
Proof.
  intros Hs1 Hh Hs2.
  destruct (stopPronounce_run w) as [Hrun Ht0].
  assert (Hfin : pronounce encodeURIComponent text language speed w
    = (Rejected (ApiError (js "API_ERR") 0
         (js "Pronounce failed, please contact developers to report problem.")
         (CauseError e2)), w3)).
  { unfold pronounce. rewrite bind_run, Hrun.
    rewrite pronounceOnce_equation_1. unfold try_catch. rewrite Hs1.
    destruct (decide (0 < MAX_RETRY)) as [_|Hn]; [|unfold MAX_RETRY in Hn; lia].
    rewrite bind_run, Hh.
    rewrite pronounceOnce_equation_1. unfold try_catch. rewrite Hs2.
    destruct (decide (1 < MAX_RETRY)) as [Hn|_]; [unfold MAX_RETRY in Hn; lia|].
    reflexivity. }
  split; [exact Hfin|].
  assert (Hkeep : forall {A} (f : World -> A),
            (forall t w, f (set_trace t w) = f w) ->
            (forall l w, f (set_cookies_get_replies l w) = f w) ->
            (forall l w, f (set_play_replies l w) = f w) ->
            (forall s p w, f (set_AUDIO s p w) = f w) ->
            preserves (keeps f) requestHomePage ->
            f w3 = f w).
  { intros A f Ht Hc Hp Ha Hhome.
    pose proof (pronounce_preserves (keeps f) text language speed) as Hpre.
    specialize (Hpre (fun w => stopPronounce_keeps f w Ht Ha)
                  (speak_keeps f text language Ht Hc Hp Ha) Hhome w).
    by rewrite Hfin in Hpre. }
  split; [apply Hkeep; auto with frame|].
  split; [apply Hkeep; auto with frame|].
  split; [apply Hkeep; auto with frame|].
  destruct (speak_trace text language (snd (stopPronounce w)))
    as (a1 & Ha1 & Hf1).
  destruct (speak_trace text language w2) as (a2 & Ha2 & Hf2).
  rewrite Hs1 in Ha1. rewrite Hs2 in Ha2. simpl in Ha1, Ha2.
  apply requestHomePage_resolved in Hh
    as (tabId & creates & updates & lastError & removes & _ & _ & _ & Hth).
  eexists. split.
  { rewrite Ha2, Hth, Ha1, Ht0. rewrite <- !app_assoc. reflexivity. }
  assert (Haudio : forall p, (forall e, is_audio_out e = true -> p e = false) ->
            count p a1 = 0 /\ count p a2 = 0).
  { intros p Hp. split; by apply (count_none p is_audio_out). }
  destruct (Haudio is_CookiesGetAll) as [C1 C2]; [by intros []|].
  destruct (Haudio is_TabsCreate) as [T1 T2]; [by intros []|].
  destruct (Haudio is_CookiesGet) as [G1 G2]; [by intros []|].
  rewrite !count_app.
  change (CookiesGet BASE_URL (js "fy_guid") :: a1)
    with ([CookiesGet BASE_URL (js "fy_guid")] ++ a1).
  change (CookiesGet BASE_URL (js "fy_guid") :: a2)
    with ([CookiesGet BASE_URL (js "fy_guid")] ++ a2).
  rewrite !count_app, C1, C2, T1, T2, G1, G2.
  by destruct (AUDIO_paused w), lastError.
Qed.

End Properties.

(* ===================================================================== *)
(** ** The properties on concrete runs *)
(* ===================================================================== *)

(** The tag "zh-CN" goes to "zh" and back. *)
Lemma lan_code_roundtrip_witness :
  js "zh-CN" ∈ supportedLanguages /\ js "zh-CN" <> js "auto" /\
  exists code,
    LAN_TO_CODE !! js "zh-CN" = Some code
    /\ CODE_TO_LAN !! code = Some (js "zh-CN").
Proof.
  assert (H1 : js "zh-CN" ∈ supportedLanguages).
  { apply elem_of_dom. exists (js "zh"). by vm_compute. }
  assert (H2 : js "zh-CN" <> js "auto") by discriminate.
  split; [exact H1|]. split; [exact H2|].
  exact (lan_code_roundtrip (js "zh-CN") H1 H2).
Defined.

(** The first request of [world_ok] is answered with [response_hello],
    which is parsed. *)
Lemma translate_world_ok :
  exists result,
    parseResult parse_no_examples (data response_hello) (js "hello")
    = OK result /\
    translate parse_no_examples (js "hello") (js "en") (js "es") world_ok
    = (Resolved result,
       snd (post_translate (js "hello") (js "en") (js "es") world_ok)).
Proof.
  assert (Hr : returned (parseResult parse_no_examples (data response_hello)
                           (js "hello")) = true) by (by vm_compute).
  apply returned_OK in Hr as [result Hr]. exists result. split; [exact Hr|].
  rewrite (translate_first_attempt parse_no_examples (js "hello") (js "en")
             (js "es") world_ok response_hello
             (snd (post_translate (js "hello") (js "en") (js "es") world_ok))).
  - by rewrite Hr.
  - by vm_compute.
  - reflexivity.
Defined.

(** In [world_ok] the response has no original text: the result holds the
    input text. *)
Lemma translate_original_text_fallback_witness :
  exists result,
    fst (translate parse_no_examples (js "hello") (js "en") (js "es") world_ok)
    = Resolved result /\
    exists response r0,
      inl response ∈ axios_replies world_ok /\
      parseResult parse_no_examples (data response) (js "hello") = OK result /\
      provider_record (data response) = Some r0 /\
      (sourceText r0 = None \/ sourceText r0 = Some [] ->
       result !! "originalText" = Some (FString (js "hello"))).
Proof.
  destruct translate_world_ok as (result & _ & Hrun).
  exists result. split; [exact (f_equal fst Hrun)|].
  exact (translate_original_text_fallback parse_no_examples
           (js "hello") (js "en") (js "es") world_ok result _ Hrun).
Defined.

(** The fields of the result in [world_ok]. *)
Lemma translate_result_fields_witness :
  exists result response,
    fst (translate parse_no_examples (js "hello") (js "en") (js "es") world_ok)
    = Resolved result /\
    parseResult parse_no_examples (data response) (js "hello") = OK result /\
    (exists o, result !! "originalText" = Some (FString o)) /\
    (exists m, result !! "mainMeaning" = Some (FString m)).
Proof.
  destruct translate_world_ok as (result & _ & Hrun).
  destruct (translate_result_fields parse_no_examples
              (js "hello") (js "en") (js "es") world_ok result _ Hrun)
    as (response & _ & Hp & Hfo & Hfm & _).
  exists result, response. split; [exact (f_equal fst Hrun)|]. auto.
Defined.

(** The target text "hola  / buenas" gives the main meaning "hola". *)
Lemma mainMeaning_first_segment_witness :
  exists result,
    parseResult parse_no_examples (data response_hello) (js "hello")
    = OK result /\
    result !! "mainMeaning" = Some (FString (js "hola")) /\
    first_segment (js "hola  / buenas") (js "hola").
Proof.
  destruct translate_world_ok as (result & Hp & _).
  exists result. split; [exact Hp|].
  destruct (mainMeaning_first_segment parse_no_examples
              (data response_hello) (js "hello") result Hp)
    as (r0 & tt & m & Hr0 & Htt & Hm & Hs & Hf).
  vm_compute in Hr0. injection Hr0 as <-.
  vm_compute in Htt. injection Htt as <-.
  vm_compute in Hs. injection Hs as <-.
  split; [exact Hm|exact Hf].
Defined.

(** In [world_japanese] the response reports the code "jp", whose tag is
    "ja"; a high surrogate on its own is sent as U+FFFD. *)
Lemma detect_request_and_result_witness :
  LAN_TO_CODE !! js "ja" = Some (js "jp") /\
  fst (detect lone_surrogate world_japanese) = Resolved (Some (js "ja")) /\
  exists req,
    trace (snd (detect lone_surrogate world_japanese)) = [Axios req] /\
    param (js "sourceText") (params req) = Some [97; 65533; 98]%N.
Proof.
  assert (Hc : LAN_TO_CODE !! js "ja" = Some (js "jp")) by (by vm_compute).
  destruct (detect_request_and_result lone_surrogate world_japanese)
    as (req & Ht & _ & _ & Hp & H).
  split; [exact Hc|].
  split; [exact (H response_japanese [] _ (js "jp") (js "ja")
                   eq_refl eq_refl eq_refl Hc)|].
  exists req. split; [exact Ht|]. by rewrite Hp.
Defined.

(** With a qtv cookie and no qtk cookie, [qtk] stays empty and [qtv] is
    stored. *)
Lemma updateTokens_keeps_token_without_cookie_witness :
  exists w2,
    updateTokens (set_cookies_getAll_replies
                    [[ {| name := js "qtv"; value := js "V" |} ]] world_ok)
    = (Resolved tt, w2) /\
    qtk w2 = [] /\ qtv w2 = js "V".
Proof.
  pose (w := set_cookies_getAll_replies
               [[ {| name := js "qtv"; value := js "V" |} ]] world_ok).
  assert (Hh : requestHomePage w = (Resolved tt, snd (requestHomePage w)))
    by (by vm_compute).
  destruct (updateTokens_keeps_token_without_cookie w _ _ [] Hh eq_refl)
    as (w2 & Hu & Hk & _ & _ & _).
  exists w2. split; [exact Hu|]. split.
  - rewrite Hk; [reflexivity|].
    intros c Hc. apply list_elem_of_singleton in Hc as ->. discriminate.
  - assert (Hq : qtv (snd (updateTokens w)) = js "V") by (by vm_compute).
    by rewrite Hu in Hq.
Defined.


(** In [world_ok] the audio is playing: the calls of [pronounce], in
    order. *)
Lemma pronounce_pauses_first_witness :
  AUDIO_paused world_ok = false /\
  trace (snd (pronounce encode_plain (js "hello") (js "en") (js "fast")
                world_ok))
  = [ AudioPause;
      CookiesGet BASE_URL (js "fy_guid");
      AudioSetSrc (tts_url (js "en") (js "hello") (js "g"));
      AudioPlay ].
Proof.
  split; [reflexivity|].
  destruct (pronounce_pauses_first encode_plain (js "hello") (js "en")
              (js "fast") world_ok eq_refl) as (evs & Ht & _ & _).
  rewrite Ht. by vm_compute in Ht |- *.
Defined.

(** In [world_never_guid] both attempts find no guid. *)
Lemma pronounce_retries_once_then_api_error_witness :
  fst (speak encode_plain (js "hello") (js "en")
         (snd (stopPronounce world_never_guid)))
  = Rejected (Message (js "Tencent guid not found!")) /\
  fst (pronounce encode_plain (js "hello") (js "en") (js "fast")
         world_never_guid)
  = Rejected (ApiError (js "API_ERR") 0
      (js "Pronounce failed, please contact developers to report problem.")
      (CauseError (Message (js "Tencent guid not found!")))).
Proof.
  pose (w0 := snd (stopPronounce world_never_guid)).
  pose (w1 := snd (speak encode_plain (js "hello") (js "en") w0)).
  pose (w2 := snd (requestHomePage w1)).
  pose (w3 := snd (speak encode_plain (js "hello") (js "en") w2)).
  assert (H1 : speak encode_plain (js "hello") (js "en") w0
               = (Rejected (Message (js "Tencent guid not found!")), w1))
    by (by vm_compute).
  assert (H2 : requestHomePage w1 = (Resolved tt, w2)) by (by vm_compute).
  assert (H3 : speak encode_plain (js "hello") (js "en") w2
               = (Rejected (Message (js "Tencent guid not found!")), w3))
    by (by vm_compute).
  destruct (pronounce_retries_once_then_api_error encode_plain
              (js "hello") (js "en") (js "fast") world_never_guid
              _ w1 w2 _ w3 H1 H2 H3) as [H _].
  split; [exact (f_equal fst H1)|]. exact (f_equal fst H).
Defined.

(** C3, as stated, fails here: the first attempt finds no guid, the home
    page is requested and the second attempt plays the text, and at no
    point is the list of cookies read or a token stored, although the
    cookies hold tokens that a credential refresh stores. *)
Lemma pronounce_without_credential_refresh :
  fst (speak encode_plain (js "hello") (js "en")
         (snd (stopPronounce world_no_guid)))
  = Rejected (Message (js "Tencent guid not found!")) /\
  fst (pronounce encode_plain (js "hello") (js "en") (js "fast")
         world_no_guid) = Resolved tt /\
  count is_CookiesGetAll
    (trace (snd (pronounce encode_plain (js "hello") (js "en") (js "fast")
                   world_no_guid))) = 0 /\
  qtk (snd (pronounce encode_plain (js "hello") (js "en") (js "fast")
              world_no_guid)) = [] /\
  qtv (snd (pronounce encode_plain (js "hello") (js "en") (js "fast")
              world_no_guid)) = [] /\
  fst (updateTokens world_no_guid) = Resolved tt /\
  qtk (snd (updateTokens world_no_guid)) = js "K" /\
  qtv (snd (updateTokens world_no_guid)) = js "V".
Proof. by vm_compute. Qed.


(* ===================================================================== *)
(** ** Further properties of the adapter *)
(* ===================================================================== *)

(** *** The language table *)

Lemma new_Map_lookup (entries : list (jsstring * jsstring)) k v :
  NoDup (entries.*1) -> (k, v) ∈ entries -> new_Map entries !! k = Some v.
Proof.
  unfold new_Map. intros Hnd Hin.
  assert (Hgen : forall m : gmap jsstring jsstring,
    foldl (fun m e => <[e.1 := e.2]> m) m entries !! k = Some v).
  { revert Hnd Hin. induction entries as [|[k' v'] l IH]; intros Hnd Hin m.
    - by apply elem_of_nil in Hin.
    - simpl. apply NoDup_cons in Hnd as [Hk' Hnd].
      apply elem_of_cons in Hin as [[= <- <-]|Hin]; [|by apply IH].
      clear IH. revert m. induction l as [|[k2 v2] l IH2]; intros m; simpl.
      + apply lookup_insert_eq.
      + apply NoDup_cons in Hnd as [_ Hnd].
        assert (k2 <> k).
        { intros ->. apply Hk'. simpl. left. }
        rewrite insert_insert_ne by done.
        apply IH2; [|done]. intros Hin. apply Hk'. simpl. by right. }
  apply Hgen.
Qed.

Lemma new_Map_lookup_Some (entries : list (jsstring * jsstring)) k v :
  new_Map entries !! k = Some v -> (k, v) ∈ entries.
Proof.
  unfold new_Map.
  assert (Hgen : forall m : gmap jsstring jsstring,
    foldl (fun m e => <[e.1 := e.2]> m) m entries !! k = Some v ->
    (k, v) ∈ entries \/ m !! k = Some v).
  { induction entries as [|[k' v'] l IH]; intros m H; simpl in *.
    - by right.
    - apply IH in H as [H|H]; [left; by right|].
      destruct (decide (k' = k)) as [->|Hne].
      + rewrite lookup_insert_eq in H. injection H as ->. left. left.
      + rewrite lookup_insert_ne in H by done. by right. }
  intros H. apply Hgen in H as [H|H]; [done|]. by rewrite lookup_empty in H.
Qed.

(** X1.  A table without repeated tags and without repeated codes is
    inverted by the table of its swapped entries, in both directions. *)
Theorem new_Map_swap_inverse (entries : list (jsstring * jsstring)) :
  NoDup (entries.*1) ->
  NoDup (entries.*2) ->
  (forall lan code,
     new_Map entries !! lan = Some code ->
     new_Map (map (fun e => (e.2, e.1)) entries) !! code = Some lan) /\
  (forall code lan,
     new_Map (map (fun e => (e.2, e.1)) entries) !! code = Some lan ->
     new_Map entries !! lan = Some code).
Proof.
  intros H1 H2.
  change (map (fun e : jsstring * jsstring => (e.2, e.1)) entries)
    with ((fun e : jsstring * jsstring => (e.2, e.1)) <$> entries).
  assert (Hswap1 : ((fun e : jsstring * jsstring => (e.2, e.1)) <$> entries).*1
                   = entries.*2).
  { rewrite <- list_fmap_compose. done. }
  split.
  - intros lan code H. apply new_Map_lookup_Some in H.
    apply new_Map_lookup; [by rewrite Hswap1|].
    apply list_elem_of_fmap. by exists (lan, code).
  - intros code lan H. apply new_Map_lookup_Some in H.
    apply list_elem_of_fmap in H as ([a b] & [= -> ->] & Hin).
    by apply new_Map_lookup.
Qed.

Lemma LANGUAGES_NoDup : NoDup (LANGUAGES.*1) /\ NoDup (LANGUAGES.*2).
Proof. split; apply (bool_decide_unpack _); by vm_compute. Qed.

Lemma map_res_OK {A B} (f : A -> res B) l bs :
  map_res f l = OK bs -> Forall2 (fun a b => f a = OK b) l bs.
Proof.
  revert bs. induction l as [|a l IH]; intros bs H; simpl in H.
  - injection H as <-. constructor.
  - apply res_bind_OK in H as (b & Hb & H).
    apply res_bind_OK in H as (bs' & Hbs & H). injection H as <-.
    constructor; [done|by apply IH].
Qed.

Lemma map_res_Throw {A B} (f : A -> res B) l e :
  map_res f l = Throw e -> exists a, a ∈ l /\ f a = Throw e.
Proof.
  induction l as [|a l IH]; intros H; simpl in H; [discriminate|].
  destruct (f a) as [b|e'] eqn:Hfa; simpl in H.
  - destruct (map_res f l) as [bs|e'] eqn:Hl; simpl in H; [discriminate|].
    injection H as ->. destruct IH as (a' & Hin & Ha'); [done|].
    exists a'. split; [by right|done].
  - injection H as ->. exists a. split; [left|done].
Qed.

Section Further.
Variable JSON_parse : jsstring -> option ExamplesJson.
Variable encodeURIComponent : jsstring -> option jsstring.

(** *** parseResult *)

Lemma dom_insert_known (k : string) (v : Field) (m : gmap string Field) :
  k ∈ result_fields -> dom m ⊆ result_fields ->
  dom (<[k := v]> m) ⊆ result_fields.
Proof.
  intros Hk Hm. rewrite dom_insert_L. apply union_subseteq.
  split; [by apply singleton_subseteq_l|done].
Qed.

(** X2.  No other property is ever set on the result. *)
Theorem parseResult_only_known_fields response text result :
  parseResult JSON_parse response text = OK result ->
  dom result ⊆ result_fields.
Proof.
  intros H. unfold parseResult in H.
  apply res_bind_OK in H as (t & Ht%deref_OK & H).
  apply res_bind_OK in H as (rs & Hrs%deref_OK & H).
  apply res_bind_OK in H as (r0 & Hr0%deref_OK & H).
  apply res_bind_OK in H as (tt & Htt%deref_OK & H).
  apply res_bind_OK in H as (result1 & H1 & H).
  destruct (suggest response) as [sg|]; simpl in *;
    [destruct (suggest_data sg) as [[|item0 items]|]; simpl in *|].
  2: destruct (truthy (prx_ph_AmE item0)) eqn:Hp;
     (destruct (truthy (examples_json item0)) eqn:He;
      [apply res_bind_OK in H1 as (parsed & _ & H1);
       apply res_bind_OK in H1 as (its & _ & H1)|]).
  all: injection H1 as <-.
  all: destruct (dict response) as [dc|]; simpl in *;
    [destruct (abstract dc) as [[|d0 ds]|]; simpl in *|].
  all: try (apply res_bind_OK in H as (ms & _ & H)).
  all: injection H as <-.
  all: destruct (missing (sourceText r0)).
  all: repeat (apply dom_insert_known;
               [apply (bool_decide_unpack _); by vm_compute|]).
  all: rewrite dom_empty_L; apply empty_subseteq.
Qed.

Lemma meanings_of_items (l : list DictItem) ms :
  map_res (fun item =>
             e ← deref (explanation item);
             OK {| pos := ps item; meaning := join (js ", ") e |}) l = OK ms ->
  Forall2 (fun item m =>
             pos m = ps item /\
             exists e, explanation item = Some e
                       /\ meaning m = join (js ", ") e) l ms.
Proof.
  intros H. apply map_res_OK in H.
  eapply Forall2_impl; [exact H|]. intros item m Hm. simpl in Hm.
  apply res_bind_OK in Hm as (e & He%deref_OK & Hm). injection Hm as <-.
  simpl. eauto.
Qed.

(** X3.  What the provider gives is carried into the result. *)
Theorem parseResult_carries_provider_fields response text result :
  parseResult JSON_parse response text = OK result ->
  (forall r0 c s,
     provider_record response = Some r0 ->
     sourceText r0 = Some (c :: s) ->
     result !! "originalText" = Some (FString (c :: s))) /\
  (forall item0 c p,
     provider_suggestion response = Some item0 ->
     prx_ph_AmE item0 = Some (c :: p) ->
     result !! "sPronunciation" = Some (FString (c :: p))) /\
  (forall item0 c e,
     provider_suggestion response = Some item0 ->
     examples_json item0 = Some (c :: e) ->
     exists parsed items,
       JSON_parse (c :: e) = Some parsed /\
       basic parsed = Some items /\
       result !! "examples"
       = Some (FExamples (map (fun item =>
                 {| ex_source := item_sourceText item;
                    ex_target := item_targetText item |}) items))) /\
  (forall l,
     provider_abstract response = Some l ->
     l <> [] ->
     exists ms,
       result !! "detailedMeanings" = Some (FMeanings ms) /\
       Forall2 (fun item m =>
                  pos m = ps item /\
                  exists e, explanation item = Some e
                            /\ meaning m = join (js ", ") e) l ms).
Proof.
  intros H. unfold parseResult in H.
  unfold provider_record, provider_suggestion, provider_abstract.
  apply res_bind_OK in H as (t & Ht%deref_OK & H).
  apply res_bind_OK in H as (rs & Hrs%deref_OK & H).
  apply res_bind_OK in H as (r0 & Hr0%deref_OK & H).
  apply res_bind_OK in H as (tt & Htt%deref_OK & H).
  apply res_bind_OK in H as (result1 & H1 & H).
  rewrite Ht. simpl. rewrite Hrs. simpl. rewrite Hr0.
  assert (Hbase : forall (m : gmap string Field) c s r0',
            Some r0 = Some r0' -> sourceText r0' = Some (c :: s) ->
            (if missing (sourceText r0)
             then <["originalText" := FString text]> m else m)
            = m).
  { intros m c s r0' [= <-] Hs. by rewrite Hs. }
  destruct (dict response ≫= abstract) as [[|d0 ds]|] eqn:Hd;
    [|apply res_bind_OK in H as (ms & Hms%meanings_of_items & H)|].
  all: injection H as <-.
  all: destruct (suggest response) as [sg|]; simpl in H1 |- *;
    [destruct (suggest_data sg) as [[|item0 items]|]; simpl in H1 |- *|].
  all: try (destruct (truthy (prx_ph_AmE item0)) eqn:Hp;
     (destruct (truthy (examples_json item0)) eqn:He;
      [apply res_bind_OK in H1 as (parsed & Hparsed & H1);
       apply res_bind_OK in H1 as (its & Hits%deref_OK & H1)|])).
  all: injection H1 as <-.
  all: split; [intros r0' c s Hr Hs; rewrite (Hbase _ c s r0' Hr Hs);
               injection Hr as <-; map_lookup; by rewrite Hs|].
  all: split; [intros i c p Heq Hi;
               first [discriminate Heq
                     |injection Heq as <-; rewrite Hi in *;
                      first [discriminate|by map_lookup]]|].
  all: split; [intros i c e Heq Hi;
               first [discriminate Heq
                     |injection Heq as <-; rewrite Hi in *;
                      first [discriminate
                            |simpl in Hparsed;
                             destruct (JSON_parse (c :: e)) as [pp|];
                             [|discriminate];
                             injection Hparsed as ->; exists parsed, its;
                             split; [done|]; split; [done|]; by map_lookup]]|].
  all: intros l Heq Hl; first [discriminate Heq|injection Heq as <-].
  all: first [done|exists ms; split; [by map_lookup|done]].
Qed.

(** X4.  A target text without a slash is the main meaning as it is. *)
Theorem parseResult_mainMeaning_without_slash response text result r0 tt :
  parseResult JSON_parse response text = OK result ->
  provider_record response = Some r0 ->
  targetText r0 = Some tt ->
  slash ∉ tt ->
  result !! "mainMeaning" = Some (FString tt).
Proof.
  intros Hp Hr Ht Hs.
  destruct (parseResult_fields JSON_parse response text result Hp)
    as (r0' & tt' & Hr' & Ht' & _ & Hm & _).
  rewrite Hr in Hr'. injection Hr' as <-. rewrite Ht in Ht'.
  injection Ht' as <-. rewrite Hm.
  destruct (split_first_segment tt) as (m & -> & [Hno Hf]). simpl.
  destruct Hf as [->|(ws & rest & -> & _)]; [done|].
  exfalso. apply Hs. rewrite !elem_of_app, elem_of_cons. auto.
Qed.

Lemma parseResult_throws_without_record response text :
  (provider_record response = None \/
   exists r0, provider_record response = Some r0 /\ targetText r0 = None) ->
  parseResult JSON_parse response text = Throw TypeError.
Proof.
  unfold provider_record, parseResult.
  destruct (translate_ response) as [t|]; simpl; [|done].
  destruct (records t) as [rs|]; simpl; [|done].
  destruct (rs !! 0) as [r0|]; simpl.
  - intros [[=]|(r0' & [= <-] & Ht)]. by rewrite Ht.
  - done.
Qed.

(** Whatever [parseResult] throws is a [TypeError] or a [SyntaxError]. *)
Lemma parseResult_Throw response text e :
  parseResult JSON_parse response text = Throw e ->
  e = TypeError \/ e = SyntaxError.
Proof.
  unfold parseResult.
  destruct (translate_ response) as [t|]; simpl; [|intros [= <-]; auto].
  destruct (records t) as [rs|]; simpl; [|intros [= <-]; auto].
  destruct (rs !! 0) as [r0|]; simpl; [|intros [= <-]; auto].
  destruct (targetText r0) as [tt|]; simpl; [|intros [= <-]; auto].
  set (base := if missing (sourceText r0) then _ else _). clearbody base.
  assert (Hd : forall m : gmap string Field,
    match dict response ≫= abstract with
    | Some (item0 :: items) =>
        ms ← map_res (fun item =>
                e ← deref (explanation item);
                OK {| pos := ps item; meaning := join (js ", ") e |})
              (item0 :: items);
        OK (<["detailedMeanings" := FMeanings ms]> m)
    | _ => OK m
    end = Throw e -> e = TypeError \/ e = SyntaxError).
  { intros m. destruct (dict response ≫= abstract) as [[|d0 ds]|];
      [done| |done].
    destruct (map_res _ (d0 :: ds)) as [ms|e'] eqn:Hms; simpl; [done|].
    intros [= ->]. apply map_res_Throw in Hms as (a & _ & Ha).
    destruct (explanation a); simpl in Ha; [discriminate|].
    injection Ha as <-. auto. }
  destruct (suggest response ≫= suggest_data) as [[|item0 items]|]; simpl;
    try apply Hd.
  destruct (truthy (examples_json item0)); simpl; [|apply Hd].
  destruct (JSON_parse (to_string (examples_json item0))) as [parsed|]; simpl;
    [|intros [= <-]; auto].
  destruct (basic parsed) as [its|]; simpl; [apply Hd|intros [= <-]; auto].
Qed.

(** *** detect *)

Lemma CODE_TO_LAN_inverse code tag :
  CODE_TO_LAN !! code = Some tag -> LAN_TO_CODE !! tag = Some code.
Proof.
  unfold CODE_TO_LAN, LAN_TO_CODE. intros H.
  apply new_Map_lookup_Some in H.
  change (map (fun e : jsstring * jsstring => (e.2, e.1)) LANGUAGES)
    with ((fun e : jsstring * jsstring => (e.2, e.1)) <$> LANGUAGES) in H.
  apply list_elem_of_fmap in H as ([a b] & [= -> ->] & Hin).
  apply new_Map_lookup; [apply LANGUAGES_NoDup|done].
Qed.

Lemma detect_run text w :
  fst (detect text w)
  = match axios_replies w with
    | [] => Pending
    | inr msg :: _ => Rejected (AxiosError msg)
    | inl response :: _ =>
        match translate_ (data response) with
        | None => Rejected TypeError
        | Some t => Resolved (source t ≫= (CODE_TO_LAN !!.))
        end
    end.
Proof.
  unfold detect, axios, emit, next, reject, lift, mbind, M_bind, mret, M_ret.
  cbn [fst snd axios_replies trace set_trace set_axios_replies].
  destruct (axios_replies w) as [|[r|msg] rest]; cbn [fst snd]; [done| |done].
  by destruct (translate_ (data r)).
Qed.

(** X5.  A tag that [detect] returns is a supported language, and it is the
    tag of the code that the response reports. *)
Theorem detect_result_supported text w tag :
  fst (detect text w) = Resolved (Some tag) ->
  tag ∈ supportedLanguages /\
  exists response rest t code,
    axios_replies w = inl response :: rest /\
    translate_ (data response) = Some t /\
    source t = Some code /\
    LAN_TO_CODE !! tag = Some code.
Proof.
  rewrite detect_run.
  destruct (axios_replies w) as [|[r|msg] rest]; [done| |done].
  destruct (translate_ (data r)) as [t|] eqn:Ht; [|done].
  destruct (source t) as [code|] eqn:Hs; [|done]. simpl.
  intros [= Hc]. apply CODE_TO_LAN_inverse in Hc.
  split; [apply elem_of_dom; eauto|]. by exists r, rest, t, code.
Qed.

(** X6.  How [detect] fails, and when it resolves to undefined. *)
Theorem detect_failures text w :
  (forall e, fst (detect text w) = Rejected e ->
     (e = TypeError /\
      exists response rest, axios_replies w = inl response :: rest
                            /\ translate_ (data response) = None) \/
     (exists msg rest, e = AxiosError msg
                       /\ axios_replies w = inr msg :: rest)) /\
  (forall response rest t,
     axios_replies w = inl response :: rest ->
     translate_ (data response) = Some t ->
     (source t = None \/
      exists code, source t = Some code /\ code ∉ dom CODE_TO_LAN) ->
     fst (detect text w) = Resolved None).
Proof.
  rewrite detect_run. split.
  - intros e. destruct (axios_replies w) as [|[r|msg] rest]; [done| |].
    + destruct (translate_ (data r)) eqn:Ht; [done|]. intros [= <-].
      left. eauto.
    + intros [= <-]. right. eauto.
  - intros response rest t -> -> [->|(code & -> & Hc)]; [done|]. simpl.
    apply not_elem_of_dom in Hc. by rewrite Hc.
Qed.

Lemma detect_keeps {A} (f : World -> A) text w :
  (forall t w, f (set_trace t w) = f w) ->
  (forall l w, f (set_axios_replies l w) = f w) ->
  f (snd (detect text w)) = f w.
Proof.
  intros Ht Ha.
  assert (H : preserves (keeps f) (detect text)).
  { unfold detect, axios.
    repeat first [preserves_step | apply Ht | apply Ha]. }
  apply H.
Qed.

(** X7.  The one request of [detect] holds the three parameters source,
    target and sourceText and no token, and it is the same whatever the
    stored tokens are; apart from the trace and the answer taken from the
    HTTP client, [detect] leaves the adapter and the browser as they
    are. *)
Theorem detect_leaves_adapter text w :
  (exists req,
     trace (snd (detect text w)) = trace w ++ [Axios req] /\
     (params req).*1 = [js "source"; js "target"; js "sourceText"] /\
     param (js "qtk") (params req) = None /\
     param (js "qtv") (params req) = None /\
     forall k v,
       trace (snd (detect text (set_qtk k (set_qtv v w))))
       = trace w ++ [Axios req]) /\
  axios_replies (snd (detect text w)) = tail (axios_replies w) /\
  qtk (snd (detect text w)) = qtk w /\
  qtv (snd (detect text w)) = qtv w /\
  AUDIO_src (snd (detect text w)) = AUDIO_src w /\
  AUDIO_paused (snd (detect text w)) = AUDIO_paused w /\
  tabs_create_replies (snd (detect text w)) = tabs_create_replies w /\
  tabs_updates (snd (detect text w)) = tabs_updates w /\
  tabs_remove_replies (snd (detect text w)) = tabs_remove_replies w /\
  cookies_getAll_replies (snd (detect text w)) = cookies_getAll_replies w /\
  cookies_get_replies (snd (detect text w)) = cookies_get_replies w /\
  play_replies (snd (detect text w)) = play_replies w /\
  clock_reads (snd (detect text w)) = clock_reads w.
Proof.
  split.
  { exists (detect_request text). split; [apply detect_trace|].
    do 3 (split; [by vm_compute|]).
    intros k v. by rewrite detect_trace. }
  split.
  { unfold detect, axios, emit, next, reject, lift, mbind, M_bind, mret,
      M_ret.
    destruct w as [f1 f2 f3 f4 replies f6 f7 f8 f9 f10 f11 f12 f13 tr];
      cbn [fst snd axios_replies trace set_trace set_axios_replies].
    destruct replies as [|[r|msg] rest]; [done| |done].
    by destruct (translate_ (data r)). }
  repeat split; by apply detect_keeps.
Qed.

(** *** The credential refresh *)

Lemma requestHomePage_trace w :
  exists evs,
    trace (snd (requestHomePage w))
    = trace w ++ TabsCreate BASE_URL false :: evs /\
    Forall (fun e => is_home_tail e = true) evs.
Proof.
  unfold requestHomePage, tabs_create, tabs_onUpdated, emit, next, reject,
    mbind, M_bind, mret, M_ret.
  destruct w as [f1 f2 f3 f4 f5 creates_ updates_ removes_ f9 f10 f11 f12 f13 tr];
    simpl.
  destruct creates_ as [|[tabId|msg] creates]; simpl;
    [by exists []| |by exists []].
  destruct (tabUpdateListener tabId updates_) as [[st updates]|]; simpl;
    [|rewrite <- !app_assoc; eexists; split; [reflexivity|repeat constructor]].
  destruct removes_ as [|[msg|] removes]; simpl;
    [rewrite <- !app_assoc; eexists; split; [reflexivity|repeat constructor]| |].
  all: destruct (bool_decide (st = complete)); simpl.
  all: rewrite <- !app_assoc; eexists; split; [reflexivity|repeat constructor].
Qed.

Lemma requestHomePage_rejected w e w1 :
  requestHomePage w = (Rejected e, w1) ->
  e = Undefined \/
  exists msg rest, e = Message msg /\ tabs_create_replies w = inr msg :: rest.
Proof.
  intros H. pose proof (requestHomePage_cases w) as Hc. rewrite H in Hc.
  simpl in Hc.
  destruct (tabs_create_replies w) as [|[tabId|msg] creates] eqn:E1; [done| |].
  - destruct (tabUpdateListener tabId (tabs_updates w)) as [[st updates]|];
      [|done].
    destruct (tabs_remove_replies w) as [|lastError removes]; [done|].
    destruct Hc as [Ho _]. case_bool_decide; [done|]. injection Ho as ->.
    by left.
  - destruct Hc as [[= ->] _]. right. eauto.
Qed.

Lemma updateTokens_trace w :
  exists evs,
    trace (snd (updateTokens w))
    = trace w ++ TabsCreate BASE_URL false :: evs /\
    Forall (fun e => is_refresh_tail e = true) evs.
Proof.
  destruct (requestHomePage_trace w) as (evs & Ht & Hf).
  assert (Hf' : Forall (fun e => is_refresh_tail e = true) evs).
  { eapply Forall_impl; [exact Hf|]. by intros []. }
  clear Hf. rename Hf' into Hf.
  unfold updateTokens. rewrite bind_run.
  destruct (requestHomePage w) as [[[]|e|] w1]; simpl in Ht; [|by eauto..].
  unfold emit, next, modify, mbind, M_bind, mret, M_ret.
  cbn [fst snd cookies_getAll_replies trace set_trace
       set_cookies_getAll_replies].
  destruct (cookies_getAll_replies w1) as [|cookies rest];
    cbn [fst snd trace set_trace set_cookies_getAll_replies].
  - exists (evs ++ [CookiesGetAll BASE_URL]). rewrite Ht, <- app_assoc.
    split; [done|]. apply Forall_app. split; [done|]. by repeat constructor.
  - exists (evs ++ [CookiesGetAll BASE_URL]).
    rewrite (store_tokens_keeps trace) by done.
    cbn [fst snd trace set_trace set_cookies_getAll_replies].
    rewrite Ht, <- app_assoc.
    split; [done|]. apply Forall_app. split; [done|]. by repeat constructor.
Qed.

Lemma updateTokens_rejected w e w1 :
  updateTokens w = (Rejected e, w1) ->
  e = Undefined \/
  exists msg rest, e = Message msg /\ tabs_create_replies w = inr msg :: rest.
Proof.
  unfold updateTokens. rewrite bind_run.
  destruct (requestHomePage w) as [[[]|e'|] w'] eqn:Hh.
  - unfold emit, next, modify, mbind, M_bind, mret, M_ret.
    cbn [fst snd cookies_getAll_replies trace set_trace
         set_cookies_getAll_replies].
    by destruct (cookies_getAll_replies w').
  - intros [= <- <-]. by apply requestHomePage_rejected in Hh.
  - done.
Qed.

(** X8.  A refresh that does not resolve leaves the tokens as they were. *)
Theorem updateTokens_failure_keeps_tokens w :
  fst (updateTokens w) <> Resolved tt ->
  qtk (snd (updateTokens w)) = qtk w /\ qtv (snd (updateTokens w)) = qtv w.
Proof.
  pose proof (requestHomePage_keeps_qtk w) as Hk.
  pose proof (requestHomePage_keeps_qtv w) as Hv. unfold keeps in *.
  unfold updateTokens. rewrite bind_run.
  destruct (requestHomePage w) as [[[]|e|] w1]; simpl in Hk, Hv; [|done..].
  unfold emit, next, modify, mbind, M_bind, mret, M_ret.
  cbn [fst snd cookies_getAll_replies trace set_trace
       set_cookies_getAll_replies].
  destruct (cookies_getAll_replies w1) as [|cookies rest];
    cbn [fst snd]; [done|]. by intros [].
Qed.

Lemma tabUpdateListener_filter tabId events :
  fst <$> tabUpdateListener tabId (filter (relevant_update tabId) events)
  = fst <$> tabUpdateListener tabId events.
Proof.
  induction events as [|[id st] events IH]; [done|].
  destruct (decide (relevant_update tabId (id, st))) as [Hr|Hr].
  - rewrite filter_cons_True by done. destruct Hr as [Hid Hst]. simpl in *.
    rewrite bool_decide_eq_true_2 by done.
    by rewrite bool_decide_eq_false_2 by done.
  - rewrite filter_cons_False by done. rewrite IH. simpl.
    unfold relevant_update in Hr. simpl in Hr.
    destruct (decide (id = tabId)) as [->|Hne].
    + rewrite bool_decide_eq_true_2 by done. simpl.
      rewrite bool_decide_eq_true_2; [done|].
      destruct (decide (st = loading)); [done|]. exfalso. by apply Hr.
    + by rewrite (bool_decide_eq_false_2 (id = tabId)) by done.
Qed.

(** X9.  The updates of other tabs, and the updates that report [loading],
    do not change how the request of the home page ends. *)
Theorem requestHomePage_ignores_other_updates w tabId creates :
  tabs_create_replies w = inl tabId :: creates ->
  fst (requestHomePage
         (set_tabs_updates
            (filter (relevant_update tabId) (tabs_updates w)) w))
  = fst (requestHomePage w).
Proof.
  intros Hc.
  pose proof (requestHomePage_cases w) as H1.
  pose proof (requestHomePage_cases
    (set_tabs_updates (filter (relevant_update tabId) (tabs_updates w)) w))
    as H2.
  cbn [tabs_create_replies tabs_updates tabs_remove_replies
       set_tabs_updates] in H2.
  rewrite Hc in H1, H2.
  pose proof (tabUpdateListener_filter tabId (tabs_updates w)) as Hf.
  destruct (tabUpdateListener tabId (tabs_updates w)) as [[st u]|];
    destruct (tabUpdateListener tabId
                (filter (relevant_update tabId) (tabs_updates w)))
      as [[st' u']|]; simpl in Hf; try discriminate Hf.
  - injection Hf as ->.
    destruct (tabs_remove_replies w) as [|lastError removes]; [congruence|].
    destruct H1 as [-> _]. by destruct H2 as [-> _].
  - congruence.
Qed.

(** X10.  When the request of the home page settles after the tab has been
    created, the removal of that tab has been asked for, and after it the
    listener has been removed. *)
Theorem requestHomePage_removes_tab w tabId creates :
  tabs_create_replies w = inl tabId :: creates ->
  fst (requestHomePage w) <> Pending ->
  exists before after,
    trace (snd (requestHomePage w))
    = trace w ++ before ++ TabsRemove tabId :: after /\
    OnUpdatedRemoveListener ∈ after.
Proof.
  intros Hc Hp. pose proof (requestHomePage_cases w) as H. rewrite Hc in H.
  destruct (tabUpdateListener tabId (tabs_updates w)) as [[st u]|]; [|done].
  destruct (tabs_remove_replies w) as [|lastError removes]; [done|].
  destruct H as [_ ->].
  exists [TabsCreate BASE_URL false; OnUpdatedAddListener],
    (match lastError with Some msg => [Log msg] | None => [] end
     ++ [OnUpdatedRemoveListener]).
  split; [done|]. rewrite elem_of_app, list_elem_of_singleton. auto.
Qed.

Lemma last_cookie_app key l1 l2 old :
  last_cookie key (l1 ++ l2) old = last_cookie key l2 (last_cookie key l1 old).
Proof. unfold last_cookie. apply foldl_app. Qed.

(** X11.  Of several cookies of the same name the last one is stored. *)
Theorem updateTokens_last_cookie_wins w w1 before c after getalls :
  requestHomePage w = (Resolved tt, w1) ->
  cookies_getAll_replies w = (before ++ c :: after) :: getalls ->
  name c = js "qtk" ->
  (forall c', c' ∈ after -> name c' <> js "qtk") ->
  fst (updateTokens w) = Resolved tt /\
  qtk (snd (updateTokens w)) = value c.
Proof.
  intros Hh Hc Hn Hafter.
  pose proof (requestHomePage_keeps_cookies_getAll_replies w) as Hg.
  rewrite Hh in Hg. unfold keeps in Hg. simpl in Hg. rewrite <- Hg in Hc.
  destruct (updateTokens_after_home w w1 _ _ Hh Hc)
    as (w2 & -> & _ & Hk & _). simpl. split; [done|].
  rewrite Hk. change (c :: after) with ([c] ++ after).
  rewrite !last_cookie_app. rewrite last_cookie_absent by done.
  unfold last_cookie. simpl. by rewrite bool_decide_eq_true_2.
Qed.

(** *** translate *)

Lemma lift_snd {A} (r : res A) w : snd (lift r w) = w.
Proof. by destruct r. Qed.

(** The whole of [translate], request by request. *)
Lemma translate_flow text from to w :
  translate JSON_parse text from to w
  = match post_translate text from to w with
    | (Resolved r1, w1) =>
        if succeeded 0 r1
        then lift (parseResult JSON_parse (data r1) text) w1
        else
          match updateTokens w1 with
          | (Resolved _, w2) =>
              match post_translate text from to w2 with
              | (Resolved r2, w3) =>
                  if succeeded 1 r2
                  then lift (parseResult JSON_parse (data r2) text) w3
                  else (Rejected (ApiError (js "API_ERR") (status r2)
                          (js "Translate failed, please contact developers to report problem.")
                          (CauseResponse r2)), w3)
              | (Rejected e, w3) => (Rejected e, w3)
              | (Pending, w3) => (Pending, w3)
              end
          | (Rejected e, w2) => (Rejected e, w2)
          | (Pending, w2) => (Pending, w2)
          end
    | (Rejected e, w1) => (Rejected e, w1)
    | (Pending, w1) => (Pending, w1)
    end.
Proof.
  unfold translate. rewrite translateOnce_equation_1, bind_run.
  destruct (post_translate text from to w) as [[r1|e|] w1]; [|done..].
  destruct (succeeded 0 r1); [done|].
  destruct (decide (0 < MAX_RETRY)) as [_|Hn]; [|unfold MAX_RETRY in Hn; lia].
  rewrite bind_run. destruct (updateTokens w1) as [[[]|e|] w2]; [|done..].
  rewrite translateOnce_equation_1, bind_run.
  destruct (post_translate text from to w2) as [[r2|e|] w3]; [|done..].
  destruct (succeeded 1 r2); [done|].
  destruct (decide (1 < MAX_RETRY)) as [Hn|_]; [unfold MAX_RETRY in Hn; lia|].
  done.
Qed.

Lemma post_translate_request text from to w :
  trace (snd (post_translate text from to w))
  = trace w ++ [Axios (translate_request text from to
                         (clock w (clock_reads w)) (qtv w) (qtk w))].
Proof.
  unfold post_translate, axios, getTime, gets, modify, emit, next, reject,
    mbind, M_bind, mret, M_ret.
  destruct w as [f1 f2 f3 f4 replies f6 f7 f8 f9 f10 f11 f12 f13 tr]; simpl.
  by destruct replies as [|[r'|msg] rest].
Qed.

Lemma post_translate_rejected text from to w e w1 :
  post_translate text from to w = (Rejected e, w1) ->
  exists msg rest, e = AxiosError msg /\ axios_replies w = inr msg :: rest.
Proof.
  unfold post_translate, axios, getTime, gets, modify, emit, next, reject,
    mbind, M_bind, mret, M_ret.
  destruct w as [f1 f2 f3 f4 replies f6 f7 f8 f9 f10 f11 f12 f13 tr]; simpl.
  destruct replies as [|[r'|msg] rest]; simpl; intros [= <- <-]. eauto.
Qed.

Lemma post_translate_keeps {A} (f : World -> A) text from to w :
  (forall t w, f (set_trace t w) = f w) ->
  (forall l w, f (set_axios_replies l w) = f w) ->
  (forall n w, f (set_clock_reads n w) = f w) ->
  f (snd (post_translate text from to w)) = f w.
Proof.
  intros Ht Ha Hc.
  assert (H : preserves (keeps f) (post_translate text from to)).
  { unfold post_translate, getTime, axios.
    repeat first [preserves_step | apply Ht | apply Ha | apply Hc]. }
  apply H.
Qed.

Lemma count_refresh_tail p evs :
  Forall (fun e => is_refresh_tail e = true) evs ->
  (forall e, is_refresh_tail e = true -> p e = false) ->
  count p evs = 0.
Proof. intros. by apply (count_none p is_refresh_tail). Qed.

(** X12.  [translate] sends one or two requests and opens at most one tab;
    it opens one when it sends two. *)
Theorem translate_request_bound text from to w :
  exists evs,
    trace (snd (translate JSON_parse text from to w)) = trace w ++ evs /\
    1 <= count is_Axios evs <= S MAX_RETRY /\
    count is_TabsCreate evs <= MAX_RETRY /\
    (count is_Axios evs = 2 -> count is_TabsCreate evs = 1).
Proof.
  rewrite translate_flow.
  destruct (post_translate_trace text from to w) as (req1 & Ht1).
  destruct (post_translate text from to w) as [[r1|e|] w1]; simpl in Ht1.
  2,3: eexists; split; [exact Ht1|unfold count, MAX_RETRY; simpl; lia].
  destruct (succeeded 0 r1).
  { rewrite lift_snd. eexists; split; [exact Ht1|].
    unfold count, MAX_RETRY; simpl; lia. }
  destruct (updateTokens_trace w1) as (evs & Ht2 & Hf).
  assert (Ca : count is_Axios evs = 0)
    by (apply count_refresh_tail; [done|by intros []]).
  assert (Cc : count is_TabsCreate evs = 0)
    by (apply count_refresh_tail; [done|by intros []]).
  assert (C1 : forall req, count is_Axios [Axios req] = 1
                           /\ count is_TabsCreate [Axios req] = 0) by done.
  assert (C2 : count is_Axios [TabsCreate BASE_URL false] = 0
               /\ count is_TabsCreate [TabsCreate BASE_URL false] = 1) by done.
  destruct (C1 req1) as [A1 T1]. destruct C2 as [A2 T2].
  destruct (updateTokens w1) as [[[]|e|] w2]; simpl in Ht2.
  2,3: exists ([Axios req1] ++ [TabsCreate BASE_URL false] ++ evs);
       split; [cbn [snd]; by rewrite Ht2, Ht1, <- app_assoc|];
       rewrite !count_app, Ca, Cc, A1, T1, A2, T2; unfold MAX_RETRY; lia.
  destruct (post_translate_trace text from to w2) as (req2 & Ht3).
  destruct (C1 req2) as [A3 T3].
  assert (Hend : exists w3,
    trace w3 = trace w2 ++ [Axios req2] /\
    snd (match post_translate text from to w2 with
         | (Resolved r2, w3) =>
             if succeeded 1 r2
             then lift (parseResult JSON_parse (data r2) text) w3
             else (Rejected (ApiError (js "API_ERR") (status r2)
                     (js "Translate failed, please contact developers to report problem.")
                     (CauseResponse r2)), w3)
         | (Rejected e, w3) => (Rejected e, w3)
         | (Pending, w3) => (Pending, w3)
         end) = w3).
  { destruct (post_translate text from to w2) as [[r2|e|] w3]; simpl in Ht3;
      exists w3; (split; [done|]); [|done..].
    destruct (succeeded 1 r2); [apply lift_snd|done]. }
  destruct Hend as (w3 & Ht & ->).
  exists ([Axios req1] ++ [TabsCreate BASE_URL false] ++ evs ++ [Axios req2]).
  split; [by rewrite Ht, Ht2, Ht1, <- !app_assoc|].
  rewrite !count_app, Ca, Cc, A1, T1, A2, T2, A3, T3. unfold MAX_RETRY. lia.
Qed.

(** X13.  A response with a translation and without a dictionary entry is
    not taken at the first attempt, it is taken at the second: between the
    two the credentials are refreshed. *)
Theorem translate_translation_only_response text from to w r1 w1 w2 r2 w3 :
  post_translate text from to w = (Resolved r1, w1) ->
  dict (data r1) = None ->
  updateTokens w1 = (Resolved tt, w2) ->
  post_translate text from to w2 = (Resolved r2, w3) ->
  dict (data r2) = None ->
  is_Some (translate_ (data r2)) ->
  translate JSON_parse text from to w
  = lift (parseResult JSON_parse (data r2) text) w3.
Proof.
  intros Hp1 Hd1 Hu Hp2 Hd2 Ht2. rewrite translate_flow, Hp1.
  unfold succeeded at 1. rewrite Hd1.
  rewrite (bool_decide_eq_false_2 (is_Some None)) by (by intros [? [=]]).
  rewrite (bool_decide_eq_false_2 (MAX_RETRY <= 0))
    by (unfold MAX_RETRY; lia).
  rewrite andb_false_r. cbn [orb]. rewrite Hu, Hp2.
  unfold succeeded. rewrite (bool_decide_eq_true_2 _ Ht2).
  rewrite (bool_decide_eq_true_2 (MAX_RETRY <= 1)) by (unfold MAX_RETRY; lia).
  by rewrite orb_true_r.
Qed.

(** X14.  A response with a dictionary entry and without a first record is
    taken as a success and fails in the parse: [translate] is rejected with
    a [TypeError] after its one request, without a refresh. *)
Theorem translate_dict_without_record text from to w r w1 :
  post_translate text from to w = (Resolved r, w1) ->
  is_Some (dict (data r)) ->
  (provider_record (data r) = None \/
   exists r0, provider_record (data r) = Some r0 /\ targetText r0 = None) ->
  translate JSON_parse text from to w = (Rejected TypeError, w1).
Proof.
  intros Hp Hd Hr. rewrite translate_flow, Hp.
  unfold succeeded. rewrite (bool_decide_eq_true_2 _ Hd). cbn [orb].
  by rewrite parseResult_throws_without_record.
Qed.

(** X15.  The request after a refresh carries the tokens that the refresh
    has stored, as [URLSearchParams] converts them: for each token the
    value of the last cookie of its name, and the token of before when
    there is no such cookie. *)
Theorem translate_retry_sends_new_tokens text from to w r1 w1 w2 :
  post_translate text from to w = (Resolved r1, w1) ->
  succeeded 0 r1 = false ->
  updateTokens w1 = (Resolved tt, w2) ->
  exists cookies getalls req2,
    cookies_getAll_replies w = cookies :: getalls /\
    trace (snd (translate JSON_parse text from to w))
    = trace w2 ++ [Axios req2] /\
    param (js "qtk") (params req2)
    = Some (USVString (last_cookie (js "qtk") cookies (qtk w))) /\
    param (js "qtv") (params req2)
    = Some (USVString (last_cookie (js "qtv") cookies (qtv w))).
Proof.
  intros Hp1 Hs1 Hu.
  destruct (post_translate_resolved text from to w r1 w1 Hp1)
    as (rest & _ & _ & Hk1 & Hv1 & _).
  pose proof (post_translate_keeps cookies_getAll_replies text from to w)
    as Hg. rewrite Hp1 in Hg. simpl in Hg.
  destruct (updateTokens_resolved w1 w2 Hu)
    as (w' & cookies & getalls & _ & Hc & _ & Hk2 & Hv2).
  rewrite Hg in Hc by done. rewrite Hk1 in Hk2. rewrite Hv1 in Hv2.
  exists cookies, getalls,
    (translate_request text from to (clock w2 (clock_reads w2))
       (qtv w2) (qtk w2)).
  split; [done|]. split.
  - rewrite translate_flow, Hp1, Hs1, Hu.
    pose proof (post_translate_request text from to w2) as Ht.
    destruct (post_translate text from to w2) as [[r2|e|] w3]; simpl in Ht;
      [|done..].
    destruct (succeeded 1 r2); [by rewrite lift_snd|done].
  - rewrite <- Hk2, <- Hv2. split; by vm_compute.
Qed.

(** X16.  What [translate] is rejected with: an error of the HTTP client, an
    error of the parse, an error of the refresh, or the structured error
    with a response of the provider. *)
Theorem translate_rejections text from to w e w' :
  translate JSON_parse text from to w = (Rejected e, w') ->
  (exists msg, e = AxiosError msg /\ inr msg ∈ axios_replies w) \/
  e = TypeError \/ e = SyntaxError \/
  e = Undefined \/
  (exists msg, e = Message msg /\ inr msg ∈ tabs_create_replies w) \/
  (exists r, e = ApiError (js "API_ERR") (status r)
                   (js "Translate failed, please contact developers to report problem.")
                   (CauseResponse r)
             /\ inl r ∈ axios_replies w).
Proof using JSON_parse.
  rewrite translate_flow.
  assert (Hparse : forall r w1,
    lift (parseResult JSON_parse (data r) text) w1 = (Rejected e, w') ->
    e = TypeError \/ e = SyntaxError).
  { intros r w1.
    destruct (parseResult JSON_parse (data r) text) as [a|e'] eqn:Hp;
      simpl; [done|]. intros [= -> _]. by apply parseResult_Throw in Hp. }
  destruct (post_translate text from to w) as [[r1|e1|] w1] eqn:Hp1;
    [| |done].
  2: { intros [= -> _]. apply post_translate_rejected in Hp1
         as (msg & rest & -> & Hr).
       left. exists msg. split; [done|]. rewrite Hr. left. }
  destruct (post_translate_resolved text from to w r1 w1 Hp1)
    as (rest & Hw & Hw1 & _).
  destruct (succeeded 0 r1).
  { intros H. apply Hparse in H as [-> | ->]; auto. }
  pose proof (post_translate_keeps tabs_create_replies text from to w) as Hc.
  rewrite Hp1 in Hc. simpl in Hc.
  destruct (updateTokens w1) as [[[]|e2|] w2] eqn:Hu; [| |done].
  2: { intros [= -> _]. apply updateTokens_rejected in Hu
         as [->|(msg & rest' & -> & Hr)]; [auto 10|].
       do 4 right. left. exists msg. split; [done|].
       rewrite <- Hc by done. rewrite Hr. left. }
  pose proof (updateTokens_keeps_axios_replies w1) as Hk.
  rewrite Hu in Hk. unfold keeps in Hk. simpl in Hk.
  destruct (post_translate text from to w2) as [[r2|e3|] w3] eqn:Hp2;
    [| |done].
  2: { intros [= -> _]. apply post_translate_rejected in Hp2
         as (msg & rest' & -> & Hr).
       left. exists msg. split; [done|].
       rewrite Hw. right. rewrite <- Hw1, <- Hk, Hr. left. }
  destruct (post_translate_resolved text from to w2 r2 w3 Hp2)
    as (rest2 & Hw2 & _).
  destruct (succeeded 1 r2).
  { intros H. apply Hparse in H as [-> | ->]; auto. }
  intros [= <- _]. do 5 right. exists r2. split; [done|].
  rewrite Hw. right. rewrite <- Hw1, <- Hk, Hw2. left.
Qed.

(** C1 (amended).  When the response to the first request of [translate]
    has no dict field, the adapter starts one credential refresh
    ([updateTokens]).  When the refresh resolves, the request is sent once
    more, with the tokens that the refresh has stored, and the trace holds
    the two requests with the calls of the refresh between them; when the
    response to this second request has neither a dict nor a translate
    field, [translate] is rejected with the structured error whose
    [errorCode] is the status of that last response and whose [errorObj]
    is that response.  When the refresh is rejected or never settles, no
    second request is sent: [translate] ends as the refresh does, rejected
    with the error of the refresh, which is not the structured error, or
    pending. *)
Theorem translate_retries_once_then_api_error text from to w r1 w1 o w2 :
  post_translate text from to w = (Resolved r1, w1) ->
  dict (data r1) = None ->
  updateTokens w1 = (o, w2) ->
  match o with
  | Resolved _ =>
      exists tabId lastError cookies getalls,
        cookies_getAll_replies w = cookies :: getalls /\
        trace (snd (translate JSON_parse text from to w))
        = trace w
          ++ [Axios (translate_request text from to (clock w (clock_reads w))
                       (qtv w) (qtk w))]
          ++ refresh_events tabId lastError
          ++ [Axios (translate_request text from to
                       (clock w2 (clock_reads w2))
                       (last_cookie (js "qtv") cookies (qtv w))
                       (last_cookie (js "qtk") cookies (qtk w)))] /\
        forall r2 w3,
          post_translate text from to w2 = (Resolved r2, w3) ->
          dict (data r2) = None ->
          translate_ (data r2) = None ->
          translate JSON_parse text from to w
          = (Rejected (ApiError (js "API_ERR") (status r2)
               (js "Translate failed, please contact developers to report problem.")
               (CauseResponse r2)), w3)
  | Rejected e =>
      translate JSON_parse text from to w = (Rejected e, w2) /\
      (e = Undefined \/ exists msg, e = Message msg) /\
      exists evs,
        trace w2
        = trace w
          ++ [Axios (translate_request text from to (clock w (clock_reads w))
                       (qtv w) (qtk w))]
          ++ evs /\
        count is_Axios evs = 0
  | Pending =>
      translate JSON_parse text from to w = (Pending, w2) /\
      exists evs,
        trace w2
        = trace w
          ++ [Axios (translate_request text from to (clock w (clock_reads w))
                       (qtv w) (qtk w))]
          ++ evs /\
        count is_Axios evs = 0
  end.
Proof.
  intros Hp1 Hd1 Hu.
  assert (Hnone : bool_decide (is_Some (@None DictData)) = false)
    by (apply bool_decide_eq_false_2; by intros [? [=]]).
  assert (Hs1 : succeeded 0 r1 = false).
  { unfold succeeded. rewrite Hd1, Hnone.
    rewrite (bool_decide_eq_false_2 (MAX_RETRY <= 0))
      by (unfold MAX_RETRY; lia).
    by rewrite andb_false_r. }
  destruct (post_translate_resolved text from to w r1 w1 Hp1)
    as (rest1 & _ & _ & Hk1 & Hv1 & Ht1).
  pose proof (translate_flow text from to w) as Hflow.
  rewrite Hp1, Hs1, Hu in Hflow.
  assert (Hfail : exists evs,
            trace (snd (updateTokens w1))
            = trace w
              ++ [Axios (translate_request text from to
                           (clock w (clock_reads w)) (qtv w) (qtk w))]
              ++ evs /\
            count is_Axios evs = 0).
  { destruct (updateTokens_trace w1) as (evs & Ht2 & Hf).
    exists ([TabsCreate BASE_URL false] ++ evs). split.
    - by rewrite Ht2, Ht1, <- app_assoc.
    - rewrite count_app.
      rewrite (count_refresh_tail is_Axios evs Hf) by (by intros []). done. }
  rewrite Hu in Hfail. cbn [snd] in Hfail.
  destruct o as [[]|e|].
  - clear Hfail.
    destruct (updateTokens_resolved w1 w2 Hu)
      as (w' & cookies & getalls & _ & Hc & _ & Hk2 & Hv2).
    destruct (updateTokens_refresh_events w1 w2 Hu)
      as (tabId & lastError & Ht2).
    pose proof (post_translate_keeps cookies_getAll_replies text from to w)
      as Hg. rewrite Hp1 in Hg. simpl in Hg. rewrite Hg in Hc by done.
    rewrite Hk1 in Hk2. rewrite Hv1 in Hv2.
    exists tabId, lastError, cookies, getalls. split; [done|]. split.
    + rewrite Hflow.
      pose proof (post_translate_request text from to w2) as Ht3.
      rewrite Hk2, Hv2, Ht2, Ht1, <- !app_assoc in Ht3.
      destruct (post_translate text from to w2) as [[r2|e|] w3];
        cbn [snd] in Ht3 |- *; [|done..].
      destruct (succeeded 1 r2); [by rewrite lift_snd|done].
    + intros r2 w3 Hp2 Hd2 Htr2. rewrite Hflow, Hp2.
      unfold succeeded. rewrite Hd2, Htr2, Hnone.
      rewrite (bool_decide_eq_false_2 (is_Some None)) by (by intros [? [=]]).
      done.
  - split; [exact Hflow|]. split; [|exact Hfail].
    apply updateTokens_rejected in Hu as [->|(msg & rest & -> & _)]; eauto.
  - split; [exact Hflow|exact Hfail].
Qed.

Lemma translateOnce_preserves P `{!PreOrder P} text from to :
  preserves P (post_translate text from to) ->
  preserves P updateTokens ->
  forall retryCount,
    preserves P (translateOnce JSON_parse text from to retryCount).
Proof.
  intros Hp Hu retryCount.
  remember (MAX_RETRY - retryCount) as k eqn:Hk.
  revert retryCount Hk.
  induction k as [k IH] using lt_wf_ind. intros retryCount ->.
  rewrite translateOnce_equation_1.
  apply preserves_bind; [done|done|]. intros response.
  destruct (succeeded retryCount response); [by apply preserves_lift|].
  destruct (decide (retryCount < MAX_RETRY)) as [Hlt|_].
  - apply preserves_bind; [done|done|]. intros _ w.
    apply (IH (MAX_RETRY - S retryCount)); [lia|done].
  - by apply preserves_reject.
Qed.

Lemma updateTokens_keeps {A} (f : World -> A) :
  (forall t w, f (set_trace t w) = f w) ->
  (forall l w, f (set_tabs_create_replies l w) = f w) ->
  (forall l w, f (set_tabs_updates l w) = f w) ->
  (forall l w, f (set_tabs_remove_replies l w) = f w) ->
  (forall l w, f (set_cookies_getAll_replies l w) = f w) ->
  (forall v w, f (set_qtk v w) = f w) ->
  (forall v w, f (set_qtv v w) = f w) ->
  preserves (keeps f) updateTokens.
Proof.
  intros Ht Hc Hu Hr Hg Hk Hv.
  unfold updateTokens, requestHomePage, tabs_create.
  repeat first [preserves_step | apply Ht | apply Hc | apply Hu | apply Hr
               | apply Hg ].
  unfold keeps. by apply store_tokens_keeps.
Qed.

(** X17.  [translate] does not touch the audio element or the answers kept
    for [pronounce], whatever happens. *)
Theorem translate_leaves_audio text from to w :
  AUDIO_src (snd (translate JSON_parse text from to w)) = AUDIO_src w /\
  AUDIO_paused (snd (translate JSON_parse text from to w)) = AUDIO_paused w /\
  cookies_get_replies (snd (translate JSON_parse text from to w))
  = cookies_get_replies w /\
  play_replies (snd (translate JSON_parse text from to w)) = play_replies w.
Proof.
  assert (H : forall {A} (f : World -> A),
    (forall t w, f (set_trace t w) = f w) ->
    (forall l w, f (set_axios_replies l w) = f w) ->
    (forall n w, f (set_clock_reads n w) = f w) ->
    (forall l w, f (set_tabs_create_replies l w) = f w) ->
    (forall l w, f (set_tabs_updates l w) = f w) ->
    (forall l w, f (set_tabs_remove_replies l w) = f w) ->
    (forall l w, f (set_cookies_getAll_replies l w) = f w) ->
    (forall v w, f (set_qtk v w) = f w) ->
    (forall v w, f (set_qtv v w) = f w) ->
    f (snd (translate JSON_parse text from to w)) = f w).
  { intros A f H1 H2 H3 H4 H5 H6 H7 H8 H9.
    apply (translateOnce_preserves (keeps f)).
    - intros w0. by apply post_translate_keeps.
    - by apply updateTokens_keeps. }
  repeat split; by apply H.
Qed.

(** *** pronounce *)

(** The whole of [pronounce], attempt by attempt. *)
Lemma pronounce_flow text language speed w :
  pronounce encodeURIComponent text language speed w
  = match speak encodeURIComponent text language (snd (stopPronounce w)) with
    | (Rejected e1, w1) =>
        match requestHomePage w1 with
        | (Resolved _, w2) =>
            match speak encodeURIComponent text language w2 with
            | (Rejected e2, w3) =>
                (Rejected (ApiError (js "API_ERR") 0
                   (js "Pronounce failed, please contact developers to report problem.")
                   (CauseError e2)), w3)
            | r => r
            end
        | (Rejected e, w2) => (Rejected e, w2)
        | (Pending, w2) => (Pending, w2)
        end
    | r => r
    end.
Proof.
  destruct (stopPronounce_run w) as [Hrun _].
  set (w0 := snd (stopPronounce w)) in *. clearbody w0.
  unfold pronounce. rewrite bind_run, Hrun.
  rewrite pronounceOnce_equation_1. unfold try_catch.
  destruct (speak encodeURIComponent text language w0)
    as [[[]|e1|] w1]; [reflexivity| |reflexivity].
  destruct (decide (0 < MAX_RETRY)) as [_|Hn]; [|unfold MAX_RETRY in Hn; lia].
  rewrite bind_run.
  destruct (requestHomePage w1) as [[[]|e|] w2]; [|reflexivity..].
  rewrite pronounceOnce_equation_1. unfold try_catch.
  destruct (speak encodeURIComponent text language w2) as [[[]|e2|] w3];
    [reflexivity| |reflexivity].
  destruct (decide (1 < MAX_RETRY)) as [Hn|_]; [unfold MAX_RETRY in Hn; lia|].
  reflexivity.
Qed.


(** X18.  [pronounce] never touches the tokens, never sends a request to the
    provider and never reads the list of cookies; it makes one or two
    attempts and requests the home page at most once. *)
Theorem pronounce_frame text language speed w :
  qtk (snd (pronounce encodeURIComponent text language speed w)) = qtk w /\
  qtv (snd (pronounce encodeURIComponent text language speed w)) = qtv w /\
  axios_replies (snd (pronounce encodeURIComponent text language speed w))
  = axios_replies w /\
  exists evs,
    trace (snd (pronounce encodeURIComponent text language speed w))
    = trace w ++ evs /\
    count is_Axios evs = 0 /\
    count is_CookiesGetAll evs = 0 /\
    1 <= count is_CookiesGet evs <= S MAX_RETRY /\
    count is_TabsCreate evs <= MAX_RETRY.
Proof.
  assert (Hkeep : forall {A} (f : World -> A),
            (forall t w, f (set_trace t w) = f w) ->
            (forall l w, f (set_cookies_get_replies l w) = f w) ->
            (forall l w, f (set_play_replies l w) = f w) ->
            (forall s p w, f (set_AUDIO s p w) = f w) ->
            preserves (keeps f) requestHomePage ->
            f (snd (pronounce encodeURIComponent text language speed w))
            = f w).
  { intros A f Ht Hc Hp Ha Hhome.
    apply (pronounce_preserves encodeURIComponent (keeps f) text language speed
             (fun w => stopPronounce_keeps f w Ht Ha)
             (speak_keeps encodeURIComponent f text language Ht Hc Hp Ha)
             Hhome). }
  split; [apply Hkeep; auto with frame|].
  split; [apply Hkeep; auto with frame|].
  split; [apply Hkeep; auto with frame|].
  rewrite pronounce_flow.
  destruct (stopPronounce_run w) as [_ Ht0].
  set (w0 := snd (stopPronounce w)) in *.
  set (pause := if AUDIO_paused w then [] else [AudioPause]) in *.
  assert (Cp : count is_Axios pause = 0 /\ count is_CookiesGetAll pause = 0
                /\ count is_CookiesGet pause = 0
                /\ count is_TabsCreate pause = 0).
  { subst pause. by destruct (AUDIO_paused w). }
  destruct Cp as (Pa & Pg & Pc & Pt).
  assert (Caudio : forall evs p,
            Forall (fun e => is_audio_out e = true) evs ->
            (forall e, is_audio_out e = true -> p e = false) ->
            count p evs = 0).
  { intros evs p Hf Hp. by apply (count_none p is_audio_out). }
  assert (Ctail : forall evs p,
            Forall (fun e => is_home_tail e = true) evs ->
            (forall e, is_home_tail e = true -> p e = false) ->
            count p evs = 0).
  { intros evs p Hf Hp. by apply (count_none p is_home_tail). }
  set (guid := CookiesGet BASE_URL (js "fy_guid")).
  set (create := TabsCreate BASE_URL false).
  destruct (speak_trace encodeURIComponent text language w0)
    as (a1 & Ha1 & Hf1). fold guid in Ha1.
  destruct (speak encodeURIComponent text language w0) as [[[]|e1|] w1];
    simpl in Ha1.
  1,3: exists (pause ++ [guid] ++ a1);
       (split; [cbn [snd]; by rewrite Ha1, Ht0, <- app_assoc|]);
       rewrite !count_app, Pa, Pg, Pc, Pt,
         !(Caudio a1) by (done || by intros []);
       unfold count, guid, MAX_RETRY; simpl; lia.
  destruct (requestHomePage_trace w1) as (h & Hh & Hfh). fold create in Hh.
  destruct (requestHomePage w1) as [[[]|e|] w2]; simpl in Hh.
  2,3: exists (pause ++ [guid] ++ a1 ++ [create] ++ h);
       (split; [cbn [snd]; by rewrite Hh, Ha1, Ht0, <- !app_assoc|]);
       rewrite !count_app, Pa, Pg, Pc, Pt,
         !(Caudio a1), !(Ctail h) by (done || by intros []);
       unfold count, guid, create, MAX_RETRY; simpl; lia.
  destruct (speak_trace encodeURIComponent text language w2)
    as (a2 & Ha2 & Hf2). fold guid in Ha2.
  exists (pause ++ [guid] ++ a1 ++ [create] ++ h ++ [guid] ++ a2).
  split.
  { destruct (speak encodeURIComponent text language w2) as [[[]|e2|] w3];
      simpl in Ha2; cbn [snd];
      by rewrite Ha2, Hh, Ha1, Ht0, <- !app_assoc. }
  rewrite !count_app, Pa, Pg, Pc, Pt,
    !(Caudio a1), !(Caudio a2), !(Ctail h) by (done || by intros []).
  unfold count, guid, create, MAX_RETRY; simpl; lia.
Qed.

(** X19.  When nothing is playing, [pronounce] does not call pause: its first
    call is the lookup of the guid cookie. *)
Theorem pronounce_when_paused text language speed w :
  AUDIO_paused w = true ->
  exists evs,
    trace (snd (pronounce encodeURIComponent text language speed w))
    = trace w ++ CookiesGet BASE_URL (js "fy_guid") :: evs /\
    count is_AudioPause evs = 0.
Proof.
  intros Hp. destruct (stopPronounce_run w) as [Hrun Ht0]. rewrite Hp in Ht0.
  rewrite app_nil_r in Ht0.
  assert (Hfin : pronounce encodeURIComponent text language speed w
                 = pronounceOnce encodeURIComponent text language 0
                     (snd (stopPronounce w))).
  { unfold pronounce. by rewrite bind_run, Hrun. }
  rewrite Hfin.
  assert (Hs : preserves (extends is_attempt_event)
                 (speak encodeURIComponent text language)).
  { apply speak_extends. intros e He. unfold is_attempt_event. by rewrite He. }
  assert (Hh : preserves (extends is_attempt_event) requestHomePage).
  { apply requestHomePage_extends. intros e He. unfold is_attempt_event.
    rewrite He. by destruct (is_speak_event e). }
  destruct (speak_trace encodeURIComponent text language
              (snd (stopPronounce w))) as (a1 & Ha1 & Hf1).
  destruct (pronounceOnce_after_speak encodeURIComponent
              (extends is_attempt_event) text language 0
              (snd (stopPronounce w)) Hs Hh) as (evs' & Hevs' & Hall).
  exists (a1 ++ evs'). split.
  - rewrite Hevs', Ha1, Ht0, <- app_assoc. done.
  - rewrite count_app.
    rewrite (count_none is_AudioPause is_audio_out a1) by (done || by intros []).
    by rewrite (count_none is_AudioPause is_attempt_event evs')
      by (done || by intros []).
Qed.




(** X21.  What [pronounce] is rejected with: the structured error, whose
    cause is the failure of the second attempt, or the error of the
    request of the home page; never the bare failure of an attempt. *)
Theorem pronounce_rejections text language speed w e w' :
  pronounce encodeURIComponent text language speed w = (Rejected e, w') ->
  (exists cause,
     e = ApiError (js "API_ERR") 0
           (js "Pronounce failed, please contact developers to report problem.")
           (CauseError cause) /\
     (cause = Message (js "Tencent guid not found!") \/ cause = URIError
      \/ exists name, cause = MediaError name)) \/
  e = Undefined \/
  (exists msg, e = Message msg /\ inr msg ∈ tabs_create_replies w).
Proof using encodeURIComponent.
  rewrite pronounce_flow.
  pose proof (stopPronounce_keeps tabs_create_replies w) as H0.
  pose proof (speak_keeps encodeURIComponent tabs_create_replies text language
                (fun _ _ => eq_refl) (fun _ _ => eq_refl)
                (fun _ _ => eq_refl) (fun _ _ _ => eq_refl)
                (snd (stopPronounce w))) as H1.
  unfold keeps in H1. rewrite H0 in H1 by done.
  destruct (speak encodeURIComponent text language (snd (stopPronounce w)))
    as [[[]|e1|] w1] eqn:Hs1; [done| |done]. simpl in H1.
  destruct (requestHomePage w1) as [[[]|e'|] w2] eqn:Hh; [| |done].
  - destruct (speak encodeURIComponent text language w2)
      as [[[]|e2|] w3] eqn:Hs2; [done| |done].
    intros [= <- _]. left. exists e2. split; [done|].
    by apply speak_rejected in Hs2.
  - intros [= -> _]. apply requestHomePage_rejected in Hh
      as [->|(msg & rest & -> & Hr)]; [auto|].
    right. right. exists msg. split; [done|]. rewrite <- H1, Hr. left.
Qed.

End Further.

(** *** The further properties on concrete runs *)

Lemma new_Map_swap_inverse_witness :
  NoDup (LANGUAGES.*1) /\ NoDup (LANGUAGES.*2) /\
  (forall lan code,
     LAN_TO_CODE !! lan = Some code -> CODE_TO_LAN !! code = Some lan) /\
  (forall code lan,
     CODE_TO_LAN !! code = Some lan -> LAN_TO_CODE !! lan = Some code).
Proof.
  destruct LANGUAGES_NoDup as [H1 H2]. split; [exact H1|]. split; [exact H2|].
  exact (new_Map_swap_inverse LANGUAGES H1 H2).
Defined.

Lemma parseResult_only_known_fields_witness :
  exists result,
    parseResult parse_no_examples (data response_hello) (js "hello")
    = OK result /\
    dom result ⊆ result_fields.
Proof.
  destruct translate_world_ok as (result & Hp & _).
  exists result. split; [exact Hp|].
  exact (parseResult_only_known_fields parse_no_examples
           (data response_hello) (js "hello") result Hp).
Defined.

Lemma parseResult_carries_provider_fields_witness :
  exists result,
    parseResult parse_no_examples (data response_hello) (js "hello")
    = OK result /\
    result !! "sPronunciation" = Some (FString (js "heh-low")) /\
    exists ms, result !! "detailedMeanings" = Some (FMeanings ms)
               /\ length ms = 1.
Proof.
  destruct translate_world_ok as (result & Hp & _).
  exists result. split; [exact Hp|].
  destruct (parseResult_carries_provider_fields parse_no_examples
              (data response_hello) (js "hello") result Hp)
    as (_ & Hs & _ & Hd).
  split.
  - exact (Hs {| prx_ph_AmE := Some (js "heh-low"); examples_json := None |}
              104%N (js "eh-low") eq_refl eq_refl).
  - destruct (Hd _ eq_refl) as (ms & Hms & Hf); [discriminate|].
    exists ms. split; [exact Hms|].
    apply Forall2_length in Hf. by rewrite <- Hf.
Defined.

Lemma parseResult_mainMeaning_without_slash_witness :
  exists result,
    parseResult parse_no_examples (data response_plain) (js "hello")
    = OK result /\
    result !! "mainMeaning" = Some (FString (js "hola ")).
Proof.
  assert (Hr : returned (parseResult parse_no_examples (data response_plain)
                           (js "hello")) = true) by (by vm_compute).
  apply returned_OK in Hr as [result Hr]. exists result. split; [exact Hr|].
  apply (parseResult_mainMeaning_without_slash parse_no_examples
           (data response_plain) (js "hello") result
           {| sourceText := Some (js "hello");
              targetText := Some (js "hola ") |} (js "hola ") Hr);
    [reflexivity|reflexivity|].
  apply (bool_decide_unpack _). by vm_compute.
Defined.

Lemma detect_result_supported_witness :
  fst (detect (js "hello") world_ok) = Resolved (Some (js "en")) /\
  js "en" ∈ supportedLanguages.
Proof.
  assert (H : fst (detect (js "hello") world_ok) = Resolved (Some (js "en")))
    by (by vm_compute).
  split; [exact H|].
  exact (proj1 (detect_result_supported (js "hello") world_ok (js "en") H)).
Defined.

Lemma detect_failures_witness :
  fst (detect (js "hello") world_dict_only) = Rejected TypeError /\
  ((TypeError = TypeError /\
    exists response rest,
      axios_replies world_dict_only = inl response :: rest
      /\ translate_ (data response) = None) \/
   (exists msg rest, TypeError = AxiosError msg
                     /\ axios_replies world_dict_only = inr msg :: rest)).
Proof.
  assert (H : fst (detect (js "hello") world_dict_only) = Rejected TypeError)
    by (by vm_compute).
  split; [exact H|].
  exact (proj1 (detect_failures (js "hello") world_dict_only) TypeError H).
Defined.

Lemma updateTokens_failure_keeps_tokens_witness :
  fst (updateTokens world_loading) = Pending /\
  qtk (snd (updateTokens world_loading)) = qtk world_loading /\
  qtv (snd (updateTokens world_loading)) = qtv world_loading.
Proof.
  assert (H : fst (updateTokens world_loading) = Pending) by (by vm_compute).
  split; [exact H|].
  apply (updateTokens_failure_keeps_tokens world_loading).
  rewrite H. discriminate.
Defined.

Lemma requestHomePage_ignores_other_updates_witness :
  filter (relevant_update 7) (tabs_updates world_ok) = [(7%N, complete)] /\
  fst (requestHomePage (set_tabs_updates [(7%N, complete)] world_ok))
  = fst (requestHomePage world_ok).
Proof.
  assert (H : filter (relevant_update 7) (tabs_updates world_ok)
              = [(7%N, complete)]) by (by vm_compute).
  split; [exact H|]. rewrite <- H.
  exact (requestHomePage_ignores_other_updates world_ok 7 [] eq_refl).
Defined.

Lemma requestHomePage_removes_tab_witness :
  fst (requestHomePage world_ok) = Resolved tt /\
  exists before after,
    trace (snd (requestHomePage world_ok))
    = trace world_ok ++ before ++ TabsRemove 7 :: after /\
    OnUpdatedRemoveListener ∈ after.
Proof.
  assert (H : fst (requestHomePage world_ok) = Resolved tt) by (by vm_compute).
  split; [exact H|].
  apply (requestHomePage_removes_tab world_ok 7 [] eq_refl).
  rewrite H. discriminate.
Defined.

Lemma updateTokens_last_cookie_wins_witness :
  fst (updateTokens world_two_qtk) = Resolved tt /\
  qtk (snd (updateTokens world_two_qtk)) = js "B".
Proof.
  assert (Hh : requestHomePage world_two_qtk
               = (Resolved tt, snd (requestHomePage world_two_qtk)))
    by (by vm_compute).
  apply (updateTokens_last_cookie_wins world_two_qtk _
           [ {| name := js "qtk"; value := js "A" |} ]
           {| name := js "qtk"; value := js "B" |}
           [ {| name := js "qtv"; value := js "V" |} ] [] Hh eq_refl eq_refl).
  intros c' Hc'. apply list_elem_of_singleton in Hc' as ->. discriminate.
Defined.

(** In [world_failing] both responses lack the fields and the refresh
    resolves: the second request carries the tokens K and V of the
    cookies, and the error carries the status 503 of the second
    response. *)
Lemma translate_retries_once_then_api_error_witness :
  dict (data (response_empty 200)) = None /\
  fst (updateTokens
         (snd (post_translate (js "hello") (js "en") (js "es") world_failing)))
  = Resolved tt /\
  trace (snd (translate parse_no_examples (js "hello") (js "en") (js "es")
                world_failing))
  = [ Axios (translate_request (js "hello") (js "en") (js "es") 1000 [] []) ]
    ++ refresh_events 7 None
    ++ [ Axios (translate_request (js "hello") (js "en") (js "es") 1001
                  (js "V") (js "K")) ] /\
  fst (translate parse_no_examples (js "hello") (js "en") (js "es")
         world_failing)
  = Rejected (ApiError (js "API_ERR") 503
      (js "Translate failed, please contact developers to report problem.")
      (CauseResponse (response_empty 503))).
Proof.
  pose (w1 := snd (post_translate (js "hello") (js "en") (js "es")
                     world_failing)).
  pose (w2 := snd (updateTokens w1)).
  pose (w3 := snd (post_translate (js "hello") (js "en") (js "es") w2)).
  assert (H1 : post_translate (js "hello") (js "en") (js "es") world_failing
               = (Resolved (response_empty 200), w1)) by (by vm_compute).
  assert (H3 : updateTokens w1 = (Resolved tt, w2)) by (by vm_compute).
  assert (H4 : post_translate (js "hello") (js "en") (js "es") w2
               = (Resolved (response_empty 503), w3)) by (by vm_compute).
  destruct (translate_retries_once_then_api_error parse_no_examples
              (js "hello") (js "en") (js "es") world_failing
              (response_empty 200) w1 (Resolved tt) w2 H1 eq_refl H3)
    as (tabId & lastError & cookies & getalls & Hc & Ht & H).
  split; [reflexivity|]. split; [exact (f_equal fst H3)|]. split.
  - rewrite Ht. by vm_compute.
  - exact (f_equal fst (H (response_empty 503) w3 H4 eq_refl eq_refl)).
Defined.

Lemma translate_translation_only_response_witness :
  exists result,
    parseResult parse_no_examples (data response_plain) (js "hello")
    = OK result /\
    fst (translate parse_no_examples (js "hello") (js "en") (js "es")
           world_translation_only) = Resolved result /\
    count is_TabsCreate
      (trace (snd (translate parse_no_examples (js "hello") (js "en")
                     (js "es") world_translation_only))) = 1.
Proof.
  assert (Hr : returned (parseResult parse_no_examples (data response_plain)
                           (js "hello")) = true) by (by vm_compute).
  apply returned_OK in Hr as [result Hr]. exists result. split; [exact Hr|].
  pose (w1 := snd (post_translate (js "hello") (js "en") (js "es")
                     world_translation_only)).
  pose (w2 := snd (updateTokens w1)).
  pose (w3 := snd (post_translate (js "hello") (js "en") (js "es") w2)).
  assert (H1 : post_translate (js "hello") (js "en") (js "es")
                 world_translation_only = (Resolved response_plain, w1))
    by (by vm_compute).
  assert (H3 : updateTokens w1 = (Resolved tt, w2)) by (by vm_compute).
  assert (H4 : post_translate (js "hello") (js "en") (js "es") w2
               = (Resolved response_plain, w3)) by (by vm_compute).
  pose proof (translate_translation_only_response parse_no_examples
                (js "hello") (js "en") (js "es") world_translation_only
                response_plain w1 w2 response_plain w3
                H1 eq_refl H3 H4 eq_refl (ex_intro _ _ eq_refl)) as H.
  rewrite H, Hr. split; [reflexivity|]. by vm_compute.
Defined.

Lemma translate_dict_without_record_witness :
  fst (translate parse_no_examples (js "hello") (js "en") (js "es")
         world_dict_only) = Rejected TypeError /\
  count is_TabsCreate
    (trace (snd (translate parse_no_examples (js "hello") (js "en") (js "es")
                   world_dict_only))) = 0.
Proof.
  pose (w1 := snd (post_translate (js "hello") (js "en") (js "es")
                     world_dict_only)).
  assert (H1 : post_translate (js "hello") (js "en") (js "es")
                 world_dict_only = (Resolved response_dict_only, w1))
    by (by vm_compute).
  pose proof (translate_dict_without_record parse_no_examples
                (js "hello") (js "en") (js "es") world_dict_only
                response_dict_only w1 H1 (ex_intro _ _ eq_refl)
                (or_introl eq_refl)) as H.
  rewrite H. split; [reflexivity|]. by vm_compute.
Defined.

Lemma translate_retry_sends_new_tokens_witness :
  exists req2,
    trace (snd (translate parse_no_examples (js "hello") (js "en") (js "es")
                  world_failing))
    = trace (snd (updateTokens
                    (snd (post_translate (js "hello") (js "en") (js "es")
                            world_failing)))) ++ [Axios req2] /\
    param (js "qtk") (params req2) = Some (js "K") /\
    param (js "qtv") (params req2) = Some (js "V").
Proof.
  pose (w1 := snd (post_translate (js "hello") (js "en") (js "es")
                     world_failing)).
  pose (w2 := snd (updateTokens w1)).
  assert (H1 : post_translate (js "hello") (js "en") (js "es") world_failing
               = (Resolved (response_empty 200), w1)) by (by vm_compute).
  assert (H3 : updateTokens w1 = (Resolved tt, w2)) by (by vm_compute).
  destruct (translate_retry_sends_new_tokens parse_no_examples
              (js "hello") (js "en") (js "es") world_failing
              (response_empty 200) w1 w2 H1 eq_refl H3)
    as (cookies & getalls & req2 & Hc & Ht & Hk & Hv).
  injection Hc as <- <-. exists req2. split; [exact Ht|].
  split; [exact Hk|exact Hv].
Defined.

Lemma translate_rejections_witness :
  exists r,
    fst (translate parse_no_examples (js "hello") (js "en") (js "es")
           world_failing)
    = Rejected (ApiError (js "API_ERR") (status r)
        (js "Translate failed, please contact developers to report problem.")
        (CauseResponse r)) /\
    inl r ∈ axios_replies world_failing.
Proof.
  destruct (translate parse_no_examples (js "hello") (js "en") (js "es")
              world_failing) as [o w'] eqn:Hrun.
  assert (Ho : o = Rejected (ApiError (js "API_ERR") 503
        (js "Translate failed, please contact developers to report problem.")
        (CauseResponse (response_empty 503)))).
  { assert (Hf : fst (translate parse_no_examples (js "hello") (js "en")
                        (js "es") world_failing) = o) by (by rewrite Hrun).
    rewrite <- Hf. by vm_compute. }
  subst o.
  destruct (translate_rejections parse_no_examples (js "hello") (js "en")
              (js "es") world_failing _ w' Hrun)
    as [(msg & [=] & _)|[[=]|[[=]|[[=]|[(msg & [=] & _)|(r & Hr & Hin)]]]]].
  exists r. split; [by rewrite Hr|exact Hin].
Defined.

Lemma pronounce_when_paused_witness :
  AUDIO_paused world_paused = true /\
  exists evs,
    trace (snd (pronounce encode_plain (js "hello") (js "en") (js "fast")
                  world_paused))
    = trace world_paused ++ CookiesGet BASE_URL (js "fy_guid") :: evs /\
    count is_AudioPause evs = 0.
Proof.
  split; [reflexivity|].
  exact (pronounce_when_paused encode_plain (js "hello") (js "en")
           (js "fast") world_paused eq_refl).
Defined.


Lemma pronounce_rejections_witness :
  exists cause,
    fst (pronounce encode_plain (js "hello") (js "en") (js "fast")
           world_never_guid)
    = Rejected (ApiError (js "API_ERR") 0
        (js "Pronounce failed, please contact developers to report problem.")
        (CauseError cause)).
Proof.
  destruct (pronounce encode_plain (js "hello") (js "en") (js "fast")
              world_never_guid) as [o w'] eqn:Hrun.
  assert (Ho : o = Rejected (ApiError (js "API_ERR") 0
        (js "Pronounce failed, please contact developers to report problem.")
        (CauseError (Message (js "Tencent guid not found!"))))).
  { assert (Hf : fst (pronounce encode_plain (js "hello") (js "en")
                        (js "fast") world_never_guid) = o)
      by (by rewrite Hrun).
    rewrite <- Hf. by vm_compute. }
  subst o.
  destruct (pronounce_rejections encode_plain (js "hello") (js "en")
              (js "fast") world_never_guid _ w' Hrun)
    as [(cause & Hc & _)|[[=]|(msg & [=] & _)]].
  exists cause. by rewrite Hc.
Defined.

(** C1, as stated, fails here: the first response lacks the fields, and
    the refresh does not resolve, because the tab cannot be created, or is
    reported unloaded, or never reports anything but [loading].  One request
    has been sent and the second answer of the provider is never asked for;
    [translate] is rejected with the error of the refresh, or stays
    pending, and there is no structured error. *)
Lemma translate_without_retry :
  axios_replies world_tab_error
  = [inl (response_empty 200); inl (response_empty 503)] /\
  fst (translate parse_no_examples (js "hello") (js "en") (js "es")
         world_tab_error)
  = Rejected (Message (js "No current window")) /\
  count is_Axios
    (trace (snd (translate parse_no_examples (js "hello") (js "en") (js "es")
                   world_tab_error))) = 1 /\
  axios_replies
    (snd (translate parse_no_examples (js "hello") (js "en") (js "es")
            world_tab_error))
  = [inl (response_empty 503)] /\
  fst (translate parse_no_examples (js "hello") (js "en") (js "es")
         world_tab_unloaded)
  = Rejected Undefined /\
  count is_Axios
    (trace (snd (translate parse_no_examples (js "hello") (js "en") (js "es")
                   world_tab_unloaded))) = 1 /\
  fst (translate parse_no_examples (js "hello") (js "en") (js "es")
         world_tab_loading)
  = Pending /\
  count is_Axios
    (trace (snd (translate parse_no_examples (js "hello") (js "en") (js "es")
                   world_tab_loading))) = 1.
Proof. by vm_compute. Qed.

